(** * xblock.core: a shallow embedding of [src/xblock/core.py]

    The development follows the module top to bottom: the string
    primitives the code calls ([startswith], [in], [replace], [split]),
    the outcome of a call (a value or a raised exception), the
    whitelist check of [XBlock.open_local_resource], the class store
    behind [TagCombiningMetaclass], [XBlock.tag] and
    [XBlock.load_tagged_classes], the constructor [XBlock.__init__] and
    the two deprecated exception wrappers at the end of the module.
    The batched save of scoped storage, which [core.py] inherits from
    [xblock.mixins], is described after the specification. *)

From Stdlib Require Import String Ascii List Bool.
From stdpp Require Import base decidable option list gmap strings fin_maps.

Set Warnings "-clear-no-such-hyp".

(** ** Outcomes of a call *)

(** The exceptions [core.py] raises or lets through. The two
    [DisallowedFileError] messages are built with [%r]; the format and
    its argument are kept apart. *)
Inductive exn :=
| DisallowedFileError (fmt uri : string)
| TypeError (msg : string)
| AttributeError (attr : string).

Inductive result (A : Type) :=
| Return (a : A)
| Raise (e : exn).
Arguments Return {A} a.
Arguments Raise {A} e.

#[global] Instance result_ret : MRet result := λ A a, Return a.
#[global] Instance result_bind : MBind result := λ A B k r,
  match r with
  | Return a => k a
  | Raise e => Raise e
  end.

(** ** Python string primitives *)
Module PyStr.

(** [s.startswith(p)] *)
Fixpoint startswith (p s : string) : bool :=
  match p, s with
  | EmptyString, _ => true
  | String a p', String b s' =>
      if decide (a = b) then startswith p' s' else false
  | String _ _, EmptyString => false
  end.

(** [sub in s] *)
Fixpoint contains (sub s : string) : bool :=
  startswith sub s ||
  match s with
  | EmptyString => false
  | String _ s' => contains sub s'
  end.

(** [s.replace(old, new)] for one-character [old] and [new], the only
    form the module uses. *)
Fixpoint replace (old new : ascii) (s : string) : string :=
  match s with
  | EmptyString => EmptyString
  | String a s' =>
      String (if decide (a = old) then new else a) (replace old new s')
  end.

(** The characters [str.isspace] accepts: space, tab, newline,
    vertical tab, form feed, carriage return. *)
Definition isspace (a : ascii) : bool :=
  bool_decide (a ∈ [" "; "009"; "010"; "011"; "012"; "013"]%char).

(** [s.split()] without arguments: the maximal runs of characters that
    are not whitespace, left to right. [split_go s] is the run that
    starts [s] together with the words that follow it. *)
Fixpoint split_go (s : string) : string * list string :=
  match s with
  | EmptyString => (EmptyString, [])
  | String a s' =>
      let '(w, ws) := split_go s' in
      if isspace a
      then (EmptyString, if decide (w = EmptyString) then ws else w :: ws)
      else (String a w, ws)
  end.

Definition split (s : string) : list string :=
  let '(w, ws) := split_go s in
  if decide (w = EmptyString) then ws else w :: ws.

(** What "a whitespace-separated word of [u]" means, stated without
    reference to [split]: a non-empty stretch of [u] free of whitespace
    that is bounded on each side by whitespace or by an end of [u]. *)
Fixpoint no_space (s : string) : bool :=
  match s with
  | EmptyString => true
  | String a s' => negb (isspace a) && no_space s'
  end.

Definition begins_blank (s : string) : bool :=
  match s with
  | EmptyString => true
  | String a _ => isspace a
  end.

Fixpoint ends_blank (s : string) : bool :=
  match s with
  | EmptyString => true
  | String a EmptyString => isspace a
  | String _ s' => ends_blank s'
  end.

Definition is_word (w u : string) : Prop :=
  w ≠ EmptyString ∧ no_space w = true ∧
  ∃ pre post, u = pre +:+ w +:+ post
              ∧ ends_blank pre = true ∧ begins_blank post = true.

(** Path segments of a URI: the pieces between occurrences of [sep].
    Used to state the whitelist the way its comment does. *)
Fixpoint segments_go (sep : ascii) (s : string) : string * list string :=
  match s with
  | EmptyString => (EmptyString, [])
  | String a s' =>
      let '(w, ws) := segments_go sep s' in
      if decide (a = sep) then (EmptyString, w :: ws) else (String a w, ws)
  end.

Definition segments (sep : ascii) (s : string) : list string :=
  let '(w, ws) := segments_go sep s in w :: ws.

Definition dot_prefixed (seg : string) : bool := startswith "." seg.

(** [a in s] for a single character [a]. *)
Fixpoint mentions (a : ascii) (s : string) : bool :=
  match s with
  | EmptyString => false
  | String b s' => bool_decide (a = b) || mentions a s'
  end.

End PyStr.

(** ** [XBlock.open_local_resource] *)
Section LocalResource.

(** [pkg_resources.resource_stream] is a collaborator outside the
    module: it maps a module name and a resource path to an open stream,
    or raises. *)
Variable stream : Type.
Variable resource_stream : string → string → result stream.

Definition open_local_resource (cls_module uri : string) : result stream :=
  if negb (PyStr.startswith "public/" uri)
  then Raise (DisallowedFileError "Only files from public/ are allowed: %r" uri)
  else if PyStr.contains "/." uri
  then Raise (DisallowedFileError "Only safe file names are allowed: %r" uri)
  else resource_stream cls_module uri.

(** The whitelist as the specification words it: the path begins with
    the public prefix and none of its segments begins with a dot. *)
Definition permitted (uri : string) : bool :=
  PyStr.startswith "public/" uri
  && forallb (λ seg, negb (PyStr.dot_prefixed seg)) (PyStr.segments "/" uri).

Definition disallowed (r : result stream) (uri : string) : Prop :=
  ∃ fmt, r = Raise (DisallowedFileError fmt uri).

(** Passing the check means the call is handed to [resource_stream]. *)
Definition passes_check (cls_module uri : string) : Prop :=
  open_local_resource cls_module uri = resource_stream cls_module uri.

End LocalResource.

(** ** Classes and their tag sets *)

(** A [set] object and a class object are known by their identities.
    Two names bound to the same identity are the same object, so an
    in-place [update] through one is seen through the other. *)
Module Classes.

Abbreviation loc := positive (only parsing).
Abbreviation cid := positive (only parsing).

(** A class object: its name, its bases and its attribute namespace.
    The namespace maps an attribute name to the identity of the object
    it holds; the only attribute [core.py] reads from a class is
    [_class_tags], which holds a [set] of strings. *)
Record class_obj := Class {
  cls_name : string;
  cls_bases : list cid;
  cls_dict : gmap string loc;
}.

(** The interpreter's store: the live [set] objects and the classes. *)
Record world := World {
  sets : gmap loc (gset string);
  classes : gmap cid class_obj;
}.

Definition empty_world : world := World ∅ ∅.

(** The object [cls._class_tags] evaluates to; [AttributeError] when the
    class has no such attribute. *)
Definition class_tags_ref (σ : world) (cls : cid) : result loc :=
  match classes σ !! cls ≫= λ k, cls_dict k !! "_class_tags" with
  | Some l => Return l
  | None => Raise (AttributeError "_class_tags")
  end.

(** The contents of [cls._class_tags]. *)
Definition class_tags (σ : world) (cls : cid) : result (gset string) :=
  l ← class_tags_ref σ cls;
  match sets σ !! l with
  | Some s => Return s
  | None => Raise (AttributeError "_class_tags")
  end.

(** The loop of [TagCombiningMetaclass.__new__] (lines 54-59):
    [class_tags.update(base._class_tags)] for every base, an
    [AttributeError] being caught and dropped. *)
Fixpoint collect_class_tags (σ : world) (class_tags0 : gset string)
    (bases : list cid) : result (gset string) :=
  match bases with
  | [] => Return class_tags0
  | base :: bases' =>
      match class_tags σ base with
      | Return s => collect_class_tags σ (class_tags0 ∪ s) bases'
      | Raise (AttributeError _) => collect_class_tags σ class_tags0 bases'
      | Raise e => Raise e
      end
  end.

(** What the builtin [type.__new__] makes of a class statement is not
    decided in this module: given the classes that exist, the name, the
    bases and the namespace, it either accepts or raises ([TypeError] on
    a repeated base, on bases without a consistent method resolution
    order, on a base that cannot be derived from). *)
Abbreviation builtin_check :=
  (gmap cid class_obj → string → list cid → gmap string loc → option exn)
  (only parsing).

(** [type.__new__(mcs, name, bases, attrs)], reached through [super] at
    line 61: the builtin's exception when it refuses, a new class object
    whose namespace is [attrs] otherwise. *)
Definition type_new (type_check : builtin_check) (name : string)
    (bases : list cid) (attrs : gmap string loc) (σ : world)
    : result (cid * world) :=
  match type_check (classes σ) name bases attrs with
  | Some e => Raise e
  | None =>
      let cls := fresh (dom (classes σ)) in
      Return (cls, World (sets σ) (<[cls := Class name bases attrs]> (classes σ)))
  end.

(** [TagCombiningMetaclass.__new__(mcs, name, bases, attrs)]. The set
    built by the loop is a new object; line 60 binds it in [attrs],
    replacing whatever the class body bound to [_class_tags]. *)
Definition TagCombiningMetaclass_new (type_check : builtin_check)
    (name : string) (bases : list cid) (attrs : gmap string loc) (σ : world)
    : result (cid * world) :=
  class_tags ← collect_class_tags σ ∅ bases;
  let l := fresh (dom (sets σ)) in
  let σ1 := World (<[l := class_tags]> (sets σ)) (classes σ) in
  type_new type_check name bases (<["_class_tags" := l]> attrs) σ1.

(** The inner function [dec] of [XBlock.tag]:
    [cls._class_tags.update(tags.replace(",", " ").split())] mutates the
    set object in place and returns [cls]. *)
Definition dec (tags : string) (cls : cid) (σ : world) : result (cid * world) :=
  l ← class_tags_ref σ cls;
  match sets σ !! l with
  | Some s =>
      let words := PyStr.split (PyStr.replace "," " " tags) in
      Return (cls, World (<[l := s ∪ list_to_set words]> (sets σ)) (classes σ))
  | None => Raise (AttributeError "_class_tags")
  end.

(** [XBlock.tag(tags)] returns the decorator. *)
Definition tag (tags : string) : cid → world → result (cid * world) := dec tags.

(** [XBlock.load_tagged_classes(tag)], a generator over the pairs that
    [cls.load_classes()] produces ([loaded]; plugin discovery lives in
    [xblock.plugin]). The result is the sequence of pairs yielded and,
    when the generator stops with an exception, that exception. *)
Fixpoint load_tagged_classes (σ : world) (tag : string)
    (loaded : list (string * cid)) : list (string * cid) * option exn :=
  match loaded with
  | [] => ([], None)
  | (name, class_) :: rest =>
      match class_tags σ class_ with
      | Return s =>
          let '(ys, e) := load_tagged_classes σ tag rest in
          if decide (tag ∈ s) then ((name, class_) :: ys, e) else (ys, e)
      | Raise e => ([], Some e)
      end
  end.

(** The operations of the module that act on the store once classes
    exist: creating a further class, and decorating a class with
    [XBlock.tag]. [load_tagged_classes] only reads. *)
Inductive step (type_check : builtin_check) : world → world → Prop :=
| step_new name bases attrs σ cls σ' :
    TagCombiningMetaclass_new type_check name bases attrs σ = Return (cls, σ') →
    step type_check σ σ'
| step_tag tags cls σ σ' :
    tag tags cls σ = Return (cls, σ') →
    step type_check σ σ'.

(** The reading of "frozen at class creation": once a class has a tag
    set, no later operation of the module changes it. *)
Definition tag_sets_frozen (type_check : builtin_check) : Prop :=
  ∀ σ σ' cls s,
    class_tags σ cls = Return s → step type_check σ σ' →
    class_tags σ' cls = Return s.

(** The tags of a base as the metaclass loop sees them: nothing when the
    base has no [_class_tags]. *)
Definition base_tags (σ : world) (base : cid) : gset string :=
  match class_tags σ base with
  | Return s => s
  | Raise _ => ∅
  end.

(** The store after [class Thumbs(object)] has been built by the
    metaclass in an empty store, and the store after
    [XBlock.tag("video")] has then been applied to that class. *)
Definition thumbs_world : world :=
  World {[1%positive := ∅]}
        {[1%positive := Class "Thumbs" [] {["_class_tags" := 1%positive]}]}.

Definition thumbs_tagged_world : world :=
  World {[1%positive := {["video"]}]}
        {[1%positive := Class "Thumbs" [] {["_class_tags" := 1%positive]}]}.

(** A store with one more class, [Plain], that the metaclass did not
    build and that has no [_class_tags]. *)
Definition plain_world : world :=
  World {[1%positive := {["video"]}]}
        {[1%positive := Class "Thumbs" [] {["_class_tags" := 1%positive]};
          5%positive := Class "Plain" [] ∅]}.

(** A builtin to run the definitions on: it refuses a repeated base, as
    [type.__new__] does, and accepts every other class statement, which
    is right for the single-inheritance examples below. *)
Definition plain_type_check : builtin_check :=
  λ _ _ bases _,
    if decide (NoDup bases) then None
    else Some (TypeError "duplicate base class").

(** A small program over the store, used to exercise the definitions:
    [XBlock] itself, a base decorated with [@XBlock.tag("video")], a
    class deriving from that base and an unrelated class. *)
Definition demo_classes : result (list cid * world) :=
  '(xblock, σ) ← TagCombiningMetaclass_new plain_type_check "XBlock" [] ∅ empty_world;
  '(base, σ) ← TagCombiningMetaclass_new plain_type_check "VideoBase" [xblock] ∅ σ;
  '(base, σ) ← tag "video" base σ;
  '(lecture, σ) ← TagCombiningMetaclass_new plain_type_check "Lecture" [base] ∅ σ;
  '(quiz, σ) ← TagCombiningMetaclass_new plain_type_check "Quiz" [xblock] ∅ σ;
  mret ([xblock; base; lecture; quiz], σ).

(** The words [dec] adds for a given argument. *)
Abbreviation words tags := (PyStr.split (PyStr.replace "," " " tags)).

(** The stores in which every class was built by the metaclass: each
    class holds a live tag set, and no two classes hold the same one. *)
Definition world_ok (σ : world) : Prop :=
  (∀ cls k, classes σ !! cls = Some k →
     ∃ l, cls_dict k !! "_class_tags" = Some l ∧ is_Some (sets σ !! l))
  ∧ (∀ c1 c2 l, class_tags_ref σ c1 = Return l → class_tags_ref σ c2 = Return l →
       c1 = c2).

(** The stores a program reaches from the empty one by building classes
    and decorating them. *)
Definition reachable (type_check : builtin_check) (σ : world) : Prop :=
  rtc (step type_check) empty_world σ.

End Classes.

(** ** [XBlock.__init__] *)

(** Python values as far as the constructor tells them apart: [None],
    the module-level sentinel [UNSET = object()] (line 30), and any other
    object, known by its identity. *)
Inductive pyval :=
| PyNone
| UNSET
| PyObject (id : positive).

#[global] Instance pyval_eq_dec : EqDecision pyval.
Proof. solve_decision. Defined.

Section Init.

(** The [__init__] of the mixin chain that [super(XBlock, self)] reaches
    lives in [xblock.mixins]; it receives [runtime], [scope_ids] and
    [field_data] by keyword. *)
Variable block : Type.
Variable mixin_init : pyval → pyval → pyval → result block.

(** The body of [__init__(self, runtime, field_data, scope_ids)]. *)
Definition XBlock_init (runtime field_data scope_ids : pyval) : result block :=
  if decide (scope_ids = UNSET)
  then Raise (TypeError "scope_ids are required")
  else mixin_init runtime scope_ids field_data.

(** A call [XBlock(runtime, ...)]: an argument left out takes its
    default, [None] for [field_data] and [UNSET] for [scope_ids]. *)
Definition XBlock_call (runtime : pyval) (field_data scope_ids : option pyval)
    : result block :=
  XBlock_init runtime (default PyNone field_data) (default UNSET scope_ids).

(** The reading "whenever [scope_ids] is supplied, whatever its value,
    the call is delegated unchanged". *)
Definition delegates_every_supplied_value : Prop :=
  ∀ runtime field_data scope_ids,
    XBlock_call runtime (Some field_data) (Some scope_ids)
    = mixin_init runtime scope_ids field_data.

End Init.

(** A mixin chain that records what it was given, to run the
    constructor on. *)
Definition recording_init (runtime scope_ids field_data : pyval)
    : result (pyval * pyval * pyval) :=
  Return (runtime, scope_ids, field_data).

(** ** The deprecated exception wrappers *)

Inductive warning_category := DeprecationWarning.

Record warning := Warning {
  w_message : string;
  w_category : warning_category;
  w_stacklevel : nat;
}.

(** [warnings.warn(message, category, stacklevel)] appends to the
    warnings that have been issued. *)
Definition warn (message : string) (category : warning_category)
    (stacklevel : nat) (issued : list warning) : list warning :=
  issued ++ [Warning message category stacklevel].

(** The four exception classes in play: the two of [xblock.exceptions]
    and the two wrappers [core.py] defines under the same names. *)
Inductive exc_class :=
| exceptions_KeyValueMultiSaveError
| exceptions_XBlockSaveError
| core_KeyValueMultiSaveError
| core_XBlockSaveError
| other_class (name : string).

Section Compat.

(** [xblock.exceptions] is not part of this module: the state an
    exception's [__init__] leaves on the instance, for given positional
    and keyword arguments, and the bases of its classes are taken as
    given. *)
Variable exc_state : Type.
Variable exceptions_init :
  exc_class → list pyval → list (string * pyval) → result exc_state.
Variable exceptions_bases : exc_class → list exc_class.

Record exc_instance := ExcInstance {
  exc_type : exc_class;
  exc_attrs : exc_state;
}.

(** The bases in the [class] statements of lines 191 and 200. *)
Definition bases (cls : exc_class) : list exc_class :=
  match cls with
  | core_KeyValueMultiSaveError => [exceptions_KeyValueMultiSaveError]
  | core_XBlockSaveError => [exceptions_XBlockSaveError]
  | _ => exceptions_bases cls
  end.

Definition issubclass : relation exc_class := rtc (λ cls base, base ∈ bases cls).

Definition isinstance (x : exc_instance) (cls : exc_class) : Prop :=
  issubclass (exc_type x) cls.

(** [__init__] of each class, taking [args] and [kwargs]: the wrappers
    warn and then run the [__init__] of their base with the same
    arguments. *)
Definition init (cls : exc_class) (args : list pyval)
    (kwargs : list (string * pyval)) (issued : list warning)
    : result exc_state * list warning :=
  match cls with
  | core_KeyValueMultiSaveError =>
      let issued := warn "Please use xblock.exceptions.KeyValueMultiSaveError"
                         DeprecationWarning 2 issued in
      (exceptions_init exceptions_KeyValueMultiSaveError args kwargs, issued)
  | core_XBlockSaveError =>
      let issued := warn "Please use xblock.exceptions.XBlockSaveError"
                         DeprecationWarning 2 issued in
      (exceptions_init exceptions_XBlockSaveError args kwargs, issued)
  | _ => (exceptions_init cls args kwargs, issued)
  end.

(** Calling the class [cls] with [args] and [kwargs]: a new instance of
    [cls], initialised. *)
Definition construct (cls : exc_class) (args : list pyval)
    (kwargs : list (string * pyval)) (issued : list warning)
    : result exc_instance * list warning :=
  let '(r, issued) := init cls args kwargs issued in
  (attrs ← r; mret (ExcInstance cls attrs), issued).

(** What two construction results have in common when they differ at
    most in the class of the instance. *)
Definition same_outcome (r1 r2 : result exc_instance) : Prop :=
  match r1, r2 with
  | Return x1, Return x2 => exc_attrs x1 = exc_attrs x2
  | Raise e1, Raise e2 => e1 = e2
  | _, _ => False
  end.

End Compat.

(** The two classes [core.py] defines at lines 191 and 200. *)
Definition is_wrapper (cls : exc_class) : Prop :=
  cls = core_KeyValueMultiSaveError ∨ cls = core_XBlockSaveError.

(** An [__init__] for the classes of [xblock.exceptions] that keeps its
    positional arguments and accepts no keyword, to run the wrappers
    on. *)
Definition keep_args (cls : exc_class) (args : list pyval)
    (kwargs : list (string * pyval)) : result (list pyval) :=
  match kwargs with
  | [] => Return args
  | _ :: _ => Raise (TypeError "__init__() got an unexpected keyword argument")
  end.

(** ** Scoped storage: the batched save *)

(** [save] belongs to [ScopedStorageMixin] in [xblock.mixins], which
    [core.py] only imports; this part follows sections 4.1, 6 and 7 of
    the specification. A block instance is taken on its own, so a key of
    the store is the name of a field. *)
Module ScopedStorage.
Section Save.

Variable value : Type.
Variable raw : Type.
Variable failure : Type.

(** The serializer of each field. *)
Variable to_json : string → value → raw.

(** The backend is opaque: whether it can be reached, and which writes
    it refuses and why, are given. *)
Variable reachable : bool.
Variable rejects : string → option failure.

(** Modelled from the spec: the [set_many] of the key-value store, which
    is missing from the sources; it takes a mapping and returns
    "mapping of key to failure, for keys that failed". The writes that
    did not fail are in the store afterwards. *)
Definition set_many (data batch : gmap string raw)
    : gmap string raw * gmap string failure :=
  (map_imap (λ k v, match rejects k with
                    | Some _ => None
                    | None => Some v
                    end) batch ∪ data,
   map_imap (λ k _, rejects k) batch).

(** Modelled from the spec: the per-instance cache of scoped storage,
    which is missing from the sources: the cached field values and the
    fields marked dirty. *)
Record instance := Instance {
  cache : gmap string value;
  dirty : gset string;
}.

(** Modelled from the spec: the field assignment of scoped storage,
    which is missing from the sources: "store in cache; mark field
    dirty; does not immediately write through to the backend". *)
Definition set_field (f : string) (v : value) (b : instance) : instance :=
  Instance (<[f := v]> (cache b)) ({[f]} ∪ dirty b).

(** Modelled from the spec: the outcomes of a save, which is missing
    from the sources: all fields written, "a named subset of fields
    failed to persist while others succeeded, reported as a structured
    per-field failure map", or a storage error. *)
Inductive save_signal :=
| Saved
| PartialSaveError (failures : gmap string failure)
| StorageError.

(** Modelled from the spec: the batch a save submits, which is missing
    from the sources: the dirty fields, serialized. *)
Definition fields_to_save (b : instance) : gmap string raw :=
  map_imap (λ f v, if decide (f ∈ dirty b) then Some (to_json f v) else None)
           (cache b).

(** Modelled from the spec: the [save] of scoped storage, which is
    missing from the sources: it "serializes all dirty fields for the
    instance and submits them as a single batch write"; "on partial
    failure, the store reports which fields failed"; "dirtiness is
    cleared only for fields confirmed written"; it "fails with a storage
    error if the backend is unreachable". *)
Definition save (b : instance) (data : gmap string raw)
    : save_signal * instance * gmap string raw :=
  if reachable then
    let batch := fields_to_save b in
    let '(data', failures) := set_many data batch in
    let written := dom batch ∖ dom failures in
    (if decide (dom failures = ∅) then Saved else PartialSaveError failures,
     Instance (cache b) (dirty b ∖ written),
     data')
  else (StorageError, b, data).

End Save.

(** A store that refuses every write to the field ["grade"]. *)
Definition no_grade (f : string) : option string :=
  if decide (f = "grade") then Some "read-only" else None.

Definition edited_block : instance string :=
  set_field string "grade" "7"
    (set_field string "name" "Intro"
       (set_field string "title" "Week 1" (Instance string ∅ ∅))).

End ScopedStorage.

(* ====================================================================== *)
(** * Properties *)
(* ====================================================================== *)

(** ** Strings *)
Module PyStrFacts.
Import PyStr.

Example split_demo :
  PyStr.split (PyStr.replace "," " " "video, audio") = ["video"; "audio"].
Proof. reflexivity. Qed.

Example segments_demo :
  PyStr.segments "/" "public/img/a.png" = ["public"; "img"; "a.png"].
Proof. reflexivity. Qed.


Lemma startswith_nil s : startswith "" s = true.
Proof. by destruct s. Qed.

Lemma startswith_cons a p b s :
  startswith (String a p) (String b s) = bool_decide (a = b) && startswith p s.
Proof. simpl. by repeat case_decide; case_bool_decide. Qed.

(** The first segment begins with a dot exactly when the string does. *)
Lemma dot_prefixed_first_segment s :
  dot_prefixed (segments_go "/" s).1 = startswith "." s.
Proof.
  destruct s as [|a s]; first done.
  simpl. destruct (segments_go "/" s) as [w ws].
  case_decide as Ha; simpl.
  - subst a. done.
  - unfold dot_prefixed. simpl. by destruct w, s.
Qed.

(** ["/." in s] holds exactly when a segment after the first one begins
    with a dot. *)
Lemma contains_slash_dot s :
  contains "/." s = existsb dot_prefixed (segments_go "/" s).2.
Proof.
  induction s as [|a s IH]; first done.
  cbn [contains segments_go].
  pose proof (dot_prefixed_first_segment s) as Hfst.
  destruct (segments_go "/" s) as [w ws]; simpl in *.
  rewrite IH. destruct (decide (a = "/"%char)) as [->|Ha].
  - rewrite decide_True by done. cbn [existsb snd]. by rewrite Hfst.
  - rewrite decide_False by done. done.
Qed.

Lemma app_cons a s t : String a s +:+ t = String a (s +:+ t).
Proof. reflexivity. Qed.

Lemma app_nil_l t : "" +:+ t = t.
Proof. reflexivity. Qed.

(** [split_go] peels off the run that starts the string. *)
Lemma split_go_run s :
  no_space (split_go s).1 = true
  ∧ ∃ rest, s = (split_go s).1 +:+ rest ∧ begins_blank rest = true.
Proof.
  induction s as [|a s [IHn (rest & IHs & IHb)]]; first by (split; [|exists ""]).
  cbn [split_go]. destruct (split_go s) as [w ws]; cbn [fst] in *.
  destruct (isspace a) eqn:Ha; cbn [fst].
  - split; first done. by exists (String a s).
  - split; first by (simpl; rewrite Ha, IHn).
    exists rest. by rewrite app_cons, <- IHs.
Qed.

Lemma split_go_first x post :
  no_space x = true → begins_blank post = true →
  (split_go (x +:+ post)).1 = x.
Proof.
  intros Hx Hpost. induction x as [|a x IH].
  - rewrite app_nil_l. destruct post as [|b post]; first done.
    simpl in *. destruct (split_go post). by rewrite Hpost.
  - rewrite app_cons. cbn [split_go no_space] in *.
    apply andb_prop in Hx as [Ha Hx]. apply negb_true_iff in Ha.
    specialize (IH Hx). destruct (split_go (x +:+ post)) as [w ws].
    rewrite Ha. simpl in *. by subst.
Qed.

Lemma ends_blank_cons a s :
  s ≠ "" → ends_blank (String a s) = ends_blank s.
Proof. by destruct s. Qed.

Lemma elem_of_cons_nonempty (x w : string) ws :
  x ∈ (if decide (w = "") then ws else w :: ws) ↔ (x = w ∧ w ≠ "") ∨ x ∈ ws.
Proof. case_decide; set_solver. Qed.

(** The words [split_go] finds after the first run are the words that
    have something in front of them. *)
Lemma split_go_rest s x :
  x ∈ (split_go s).2 ↔
  x ≠ "" ∧ no_space x = true ∧
  ∃ pre post, s = pre +:+ x +:+ post ∧ pre ≠ ""
              ∧ ends_blank pre = true ∧ begins_blank post = true.
Proof.
  induction s as [|a s IH] in x |- *.
  - simpl. split; first by intros ?%elem_of_nil.
    intros (_ & _ & [|? ?] & post & Heq & Hpre & _); done.
  - cbn [split_go].
    pose proof (split_go_run s) as (Hrun & rest & Hs & Hrest).
    destruct (split_go s) as [w ws] eqn:Hgo; cbn [fst snd] in *.
    destruct (isspace a) eqn:Ha; cbn [snd].
    + rewrite elem_of_cons_nonempty. split.
      * intros [[-> Hw]|Hin'].
        -- split_and!; [done..|]. exists (String a ""), rest.
           rewrite app_cons, app_nil_l, <- Hs. simpl. by rewrite Ha.
        -- apply IH in Hin' as (Hx & Hn & pre & post & -> & Hpre & He & Hb).
           split_and!; [done..|]. exists (String a pre), post.
           rewrite ends_blank_cons by done. done.
      * intros (Hx & Hn & [|b pre] & post & Heq & Hpre & He & Hb); first done.
        rewrite app_cons in Heq. injection Heq as <- ->.
        destruct pre as [|c pre].
        -- rewrite app_nil_l in Hgo.
           pose proof (split_go_first x post Hn Hb) as Hfirst.
           rewrite Hgo in Hfirst. simpl in Hfirst. subst w. by left.
        -- right. rewrite ends_blank_cons in He by done.
           apply IH. split_and!; [done..|]. by exists (String c pre), post.
    + rewrite IH. split.
      * intros (Hx & Hn & pre & post & -> & Hpre & He & Hb).
        split_and!; [done..|]. exists (String a pre), post.
        rewrite ends_blank_cons by done. done.
      * intros (Hx & Hn & [|b pre] & post & Heq & Hpre & He & Hb); first done.
        rewrite app_cons in Heq. injection Heq as <- ->.
        destruct pre as [|c pre]; first by (simpl in He; congruence).
        rewrite ends_blank_cons in He by done.
        split_and!; [done..|]. by exists (String c pre), post.
Qed.

(** [split] returns exactly the whitespace-separated words. *)
Lemma elem_of_split s x : x ∈ split s ↔ is_word x s.
Proof.
  unfold split, is_word.
  pose proof (split_go_run s) as (Hrun & rest & Hs & Hrest).
  pose proof (split_go_rest s x) as Hws.
  destruct (split_go s) as [w ws] eqn:Hgo; cbn [fst snd] in *.
  rewrite elem_of_cons_nonempty. split.
  - intros [[-> Hw]|Hin'].
    + split_and!; [done..|]. by exists "", rest.
    + apply Hws in Hin' as (? & ? & pre & post & ? & ? & ? & ?). eauto 10.
  - intros (Hx & Hn & pre & post & Heq & He & Hb).
    destruct pre as [|c pre].
    + rewrite app_nil_l in Heq. rewrite Heq in Hgo.
      pose proof (split_go_first x post Hn Hb) as Hfirst.
      rewrite Hgo in Hfirst. simpl in Hfirst. subst w. by left.
    + right. apply Hws. split_and!; [done..|]. by exists (String c pre), post.
Qed.

End PyStrFacts.

(** ** The local-resource whitelist *)
Section LocalResourceFacts.
Context {stream : Type} (resource_stream : string → string → result stream).

Lemma permitted_code uri :
  permitted uri = PyStr.startswith "public/" uri && negb (PyStr.contains "/." uri).
Proof.
  unfold permitted. destruct (PyStr.startswith "public/" uri) eqn:Hpre; last done.
  cbn [andb]. rewrite PyStrFacts.contains_slash_dot.
  unfold PyStr.segments.
  pose proof (PyStrFacts.dot_prefixed_first_segment uri) as Hfst.
  destruct (PyStr.segments_go "/" uri) as [w ws]; cbn [fst snd forallb] in *.
  assert (PyStr.startswith "." uri = false) as Hdot.
  { destruct uri as [|a uri]; first done.
    simpl in Hpre. case_decide; last done. subst a. done. }
  rewrite Hfst, Hdot. cbn [negb andb].
  clear. induction ws as [|x ws IH]; first done.
  cbn [forallb existsb]. rewrite IH. by destruct (PyStr.dot_prefixed x), (existsb _ ws).
Qed.

(** C1. For every URI string [u], [open_local_resource] hands the request
    to the resource loader if and only if [u] begins with ["public/"] and
    none of its path segments begins with a dot; every other [u] raises
    [DisallowedFileError]. In particular ["public/img/a.png"] passes the
    check, and ["secret/x"] and ["public/.hidden"] are both refused with
    [DisallowedFileError]. *)
Theorem open_local_resource_whitelist (cls_module u : string) :
  (if permitted u
   then passes_check stream resource_stream cls_module u
   else disallowed stream (open_local_resource stream resource_stream cls_module u) u)
  ∧ permitted "public/img/a.png" = true
  ∧ passes_check stream resource_stream cls_module "public/img/a.png"
  ∧ disallowed stream
      (open_local_resource stream resource_stream cls_module "secret/x") "secret/x"
  ∧ disallowed stream
      (open_local_resource stream resource_stream cls_module "public/.hidden")
      "public/.hidden".
Proof.
  split_and!; try done; try (by eexists).
  rewrite permitted_code. unfold passes_check, open_local_resource, disallowed.
  destruct (PyStr.startswith "public/" u); cbn [negb andb]; last by eexists.
  destruct (PyStr.contains "/." u); cbn [negb]; [by eexists|done].
Qed.

End LocalResourceFacts.

(** ** Class tag sets *)
Module ClassesFacts.
Import Classes.

Lemma class_tags_raise σ cls e :
  class_tags σ cls = Raise e → e = AttributeError "_class_tags".
Proof.
  unfold class_tags, class_tags_ref.
  destruct (classes σ !! cls ≫= _) as [l|]; simpl; last congruence.
  destruct (sets σ !! l); congruence.
Qed.

Lemma class_tags_inv σ cls s :
  class_tags σ cls = Return s ↔
  ∃ k l, classes σ !! cls = Some k ∧ cls_dict k !! "_class_tags" = Some l
         ∧ sets σ !! l = Some s.
Proof.
  unfold class_tags, class_tags_ref. split.
  - destruct (classes σ !! cls) as [k|] eqn:Hk; simpl; last done.
    destruct (cls_dict k !! "_class_tags") as [l|] eqn:Hl; simpl; last done.
    destruct (sets σ !! l) eqn:Hs; last done.
    intros [= ->]. eauto.
  - intros (k & l & -> & Hl & Hs). simpl. rewrite Hl. simpl. by rewrite Hs.
Qed.

(** The metaclass loop never raises and computes the union of what the
    bases carry. *)
Lemma collect_class_tags_union σ acc bases :
  collect_class_tags σ acc bases = Return (acc ∪ ⋃ (base_tags σ <$> bases)).
Proof.
  revert acc. induction bases as [|base bases IH]; intros acc; simpl.
  - f_equal. set_solver.
  - unfold base_tags at 1.
    destruct (class_tags σ base) as [s|e] eqn:Hb.
    + rewrite IH. f_equal. set_solver.
    + apply class_tags_raise in Hb as ->. rewrite IH. f_equal. set_solver.
Qed.

Lemma metaclass_new_eq {tc} name bases attrs σ :
  let l := fresh (dom (sets σ)) in
  let cls := fresh (dom (classes σ)) in
  TagCombiningMetaclass_new tc name bases attrs σ =
  match tc (classes σ) name bases (<["_class_tags" := l]> attrs) with
  | Some e => Raise e
  | None =>
      Return (cls,
        World (<[l := ⋃ (base_tags σ <$> bases)]> (sets σ))
              (<[cls := Class name bases (<["_class_tags" := l]> attrs)]>
                 (classes σ)))
  end.
Proof.
  intros l cls. unfold TagCombiningMetaclass_new.
  rewrite collect_class_tags_union. simpl. unfold type_new. simpl.
  by rewrite (left_id_L ∅ (∪)).
Qed.

(** A call that returns has built this class in this store. *)
Lemma metaclass_new_inv {tc} name bases attrs σ cls σ' :
  TagCombiningMetaclass_new tc name bases attrs σ = Return (cls, σ') →
  cls = fresh (dom (classes σ))
  ∧ σ' = World (<[fresh (dom (sets σ)) := ⋃ (base_tags σ <$> bases)]> (sets σ))
               (<[fresh (dom (classes σ)) :=
                    Class name bases
                      (<["_class_tags" := fresh (dom (sets σ))]> attrs)]>
                  (classes σ)).
Proof.
  rewrite metaclass_new_eq. cbv zeta.
  destruct (tc _ _ _ _); last by intros [= <- <-]. done.
Qed.

(** The call returns whenever the builtin accepts the class statement. *)
Lemma metaclass_new_accept {tc} name bases attrs σ :
  tc (classes σ) name bases (<["_class_tags" := fresh (dom (sets σ))]> attrs)
    = None →
  TagCombiningMetaclass_new tc name bases attrs σ =
  Return (fresh (dom (classes σ)),
    World (<[fresh (dom (sets σ)) := ⋃ (base_tags σ <$> bases)]> (sets σ))
          (<[fresh (dom (classes σ)) :=
               Class name bases
                 (<["_class_tags" := fresh (dom (sets σ))]> attrs)]>
             (classes σ))).
Proof. rewrite metaclass_new_eq. cbv zeta. by intros ->. Qed.

Lemma fresh_set_loc σ : sets σ !! fresh (dom (sets σ)) = None.
Proof. apply not_elem_of_dom, is_fresh. Qed.

Lemma fresh_class_id σ : classes σ !! fresh (dom (classes σ)) = None.
Proof. apply not_elem_of_dom, is_fresh. Qed.

(** Creating a class leaves the tag set of every class that already has
    one as it was. *)
Lemma metaclass_new_frame {tc} name bases attrs σ cls σ' c0 s :
  TagCombiningMetaclass_new tc name bases attrs σ = Return (cls, σ') →
  class_tags σ c0 = Return s →
  class_tags σ' c0 = Return s.
Proof.
  intros [-> ->]%metaclass_new_inv.
  rewrite !class_tags_inv. intros (k & l & Hk & Hl & Hs).
  exists k, l. simpl. split_and!; [|done|].
  - rewrite lookup_insert_ne; first done.
    intros Heq. pose proof (fresh_class_id σ) as Hf. congruence.
  - rewrite lookup_insert_ne; first done.
    intros Heq. pose proof (fresh_set_loc σ) as Hf. congruence.
Qed.

Lemma metaclass_new_tags {tc} name bases attrs σ cls σ' :
  TagCombiningMetaclass_new tc name bases attrs σ = Return (cls, σ') →
  class_tags_ref σ' cls = Return (fresh (dom (sets σ)))
  ∧ class_tags σ' cls = Return (⋃ (base_tags σ <$> bases)).
Proof.
  intros [-> ->]%metaclass_new_inv.
  unfold class_tags, class_tags_ref. simpl.
  rewrite lookup_insert_eq. simpl. rewrite lookup_insert_eq. simpl.
  by rewrite lookup_insert_eq.
Qed.

Example demo_classes_run :
  ∃ σ, demo_classes = Return ([1; 2; 3; 4]%positive, σ)
       ∧ class_tags σ 1 = Return ∅
       ∧ class_tags σ 2 = Return {["video"]}
       ∧ class_tags σ 3 = Return {["video"]}
       ∧ class_tags σ 4 = Return ∅.
Proof. eexists. split_and!; vm_compute; reflexivity. Qed.

Lemma dec_eq tags cls σ l s :
  class_tags_ref σ cls = Return l → sets σ !! l = Some s →
  dec tags cls σ =
  Return (cls, World (<[l := s ∪ list_to_set (PyStr.split (PyStr.replace "," " " tags))]>
                        (sets σ)) (classes σ)).
Proof. unfold dec. intros -> ?. simpl. by simplify_option_eq. Qed.

Lemma class_tags_ref_inv σ cls s :
  class_tags σ cls = Return s →
  ∃ l, class_tags_ref σ cls = Return l ∧ sets σ !! l = Some s.
Proof.
  unfold class_tags. destruct (class_tags_ref σ cls) as [l|]; simpl; last done.
  destruct (sets σ !! l) eqn:?; last done. intros [= ->]. eauto.
Qed.

Lemma dec_inv tags cls σ c' σ' :
  dec tags cls σ = Return (c', σ') →
  ∃ l s, class_tags_ref σ cls = Return l ∧ sets σ !! l = Some s ∧ c' = cls
    ∧ σ' = World (<[l := s ∪ list_to_set (PyStr.split (PyStr.replace "," " " tags))]>
                    (sets σ)) (classes σ).
Proof.
  unfold dec. destruct (class_tags_ref σ cls) as [l|]; simpl; last done.
  destruct (sets σ !! l) as [s|] eqn:?; last done.
  intros [= <- <-]. eauto 10.
Qed.

(** Decorating any class never takes a tag away from any class. *)
Lemma dec_grows tags cls σ c' σ' c0 s :
  dec tags cls σ = Return (c', σ') →
  class_tags σ c0 = Return s →
  ∃ s', class_tags σ' c0 = Return s' ∧ s ⊆ s'.
Proof.
  intros (l & s1 & Hl & Hs1 & -> & ->)%dec_inv.
  rewrite class_tags_inv. intros (k & l0 & Hk & Hl0 & Hs).
  destruct (decide (l0 = l)) as [->|Hne].
  - exists (s1 ∪ list_to_set (PyStr.split (PyStr.replace "," " " tags))).
    split; last (simplify_eq; set_solver).
    apply class_tags_inv. exists k, l. simpl. by rewrite lookup_insert_eq.
  - exists s. split; last done.
    apply class_tags_inv. exists k, l0. simpl. by rewrite lookup_insert_ne.
Qed.

Lemma step_grows {tc} σ σ' c0 s :
  step tc σ σ' → class_tags σ c0 = Return s →
  ∃ s', class_tags σ' c0 = Return s' ∧ s ⊆ s'.
Proof.
  destruct 1 as [name bases attrs σ cls σ' Hnew|tags cls σ σ' Htag]; intros Hs.
  - exists s. split; last done. eauto using metaclass_new_frame.
  - eauto using dec_grows.
Qed.

Lemma steps_grow {tc} σ σ' c0 s :
  rtc (step tc) σ σ' → class_tags σ c0 = Return s →
  ∃ s', class_tags σ' c0 = Return s' ∧ s ⊆ s'.
Proof.
  induction 1 as [σ|σ σ1 σ2 Hstep _ IH] in s |- *; intros Hs.
  - by exists s.
  - destruct (step_grows _ _ _ _ Hstep Hs) as (s1 & Hs1 & Hsub).
    destruct (IH _ Hs1) as (s2 & Hs2 & Hsub'). exists s2. split; [done|set_solver].
Qed.

Lemma load_tagged_classes_eq σ t (loaded : list (string * cid)) :
  Forall (λ p, ∃ s, class_tags σ p.2 = Return s) loaded →
  load_tagged_classes σ t loaded =
  (filter (λ p, t ∈ base_tags σ p.2) loaded, None).
Proof.
  induction 1 as [|[name c] rest [s Hs] _ IH]; first done.
  cbn [load_tagged_classes snd] in *. rewrite Hs, IH, filter_cons.
  assert (base_tags σ (name, c).2 = s) as -> by (unfold base_tags; simpl; by rewrite Hs).
  by case_decide.
Qed.

(** C3. Whenever [TagCombiningMetaclass.__new__] returns a class, that
    class is new and has, in the very store the call returns (before
    any instance of it can exist), a tag set equal to the union of the
    tag sets of its bases, a base without [_class_tags] contributing
    nothing; what the class body bound to [_class_tags] plays no
    part. *)
Theorem metaclass_unions_base_tags {tc} σ name bases attrs cls σ' :
  TagCombiningMetaclass_new tc name bases attrs σ = Return (cls, σ') →
  classes σ !! cls = None
  ∧ class_tags σ' cls = Return (⋃ (base_tags σ <$> bases))
  ∧ ∀ t, t ∈ ⋃ (base_tags σ <$> bases) ↔
         ∃ base s, base ∈ bases ∧ class_tags σ base = Return s ∧ t ∈ s.
Proof.
  intros Hnew. pose proof Hnew as [-> _]%metaclass_new_inv.
  split; first apply fresh_class_id.
  split; first (eapply metaclass_new_tags, Hnew).
  intros t. rewrite elem_of_union_list. split.
  - intros (X & (base & -> & Hbase)%list_elem_of_fmap & Ht).
    unfold base_tags in Ht. destruct (class_tags σ base) as [s|] eqn:Hs;
      last set_solver.
    eauto.
  - intros (base & s & Hbase & Hs & Ht). exists s. split; last done.
    apply list_elem_of_fmap. exists base. split; last done.
    unfold base_tags. by rewrite Hs.
Qed.

Lemma metaclass_unions_base_tags_witness :
  ∃ cls σ',
    TagCombiningMetaclass_new plain_type_check "Clip" [1; 5]%positive ∅ plain_world
      = Return (cls, σ')
    ∧ class_tags σ' cls = Return (⋃ (base_tags plain_world <$> [1; 5]%positive)).
Proof.
  eexists _, _. split; first by vm_compute.
  eapply (metaclass_unions_base_tags (tc := plain_type_check) plain_world "Clip"
            [1; 5]%positive ∅).
  by vm_compute.
Defined.

(** C10. When the builtin accepts the class statement, the call
    returns a class whatever the bases carry: a base without
    [_class_tags] is skipped and the metaclass raises nothing of its
    own. The tag set of the class is a new object: it did not exist
    before the call and is not the object any class with a tag set
    holds, so that decorating the new class with [XBlock.tag] leaves
    the tag set of every earlier class, its bases included, as it
    was. *)
Theorem metaclass_allocates_fresh_set {tc} σ name bases attrs :
  tc (classes σ) name bases (<["_class_tags" := fresh (dom (sets σ))]> attrs)
    = None →
  ∃ cls σ' l,
    TagCombiningMetaclass_new tc name bases attrs σ = Return (cls, σ')
    ∧ class_tags_ref σ' cls = Return l
    ∧ sets σ !! l = None
    ∧ (∀ base s, class_tags σ base = Return s →
         class_tags_ref σ' base ≠ Return l)
    ∧ (∀ tags, ∃ σ'',
         tag tags cls σ' = Return (cls, σ'')
         ∧ ∀ base s, class_tags σ base = Return s →
             class_tags σ'' base = Return s).
Proof.
  intros Hnew%(metaclass_new_accept name bases attrs σ).
  destruct (metaclass_new_tags _ _ _ _ _ _ Hnew) as [Href Htags].
  eexists _, _, _. split; first exact Hnew.
  split; first exact Href. split; first apply fresh_set_loc.
  split.
  - intros base s Hs Hl.
    pose proof (metaclass_new_frame _ _ _ _ _ _ _ _ Hnew Hs) as Hs'.
    apply class_tags_ref_inv in Hs as (l0 & Hl0 & Hs).
    apply class_tags_ref_inv in Hs' as (l1 & Hl1 & _).
    assert (l1 = fresh (dom (sets σ))) as -> by congruence.
    revert Hl0 Hl1. unfold class_tags_ref. simpl.
    destruct (decide (base = fresh (dom (classes σ)))) as [->|Hne].
    + by rewrite fresh_class_id.
    + rewrite lookup_insert_ne by done. intros -> [= ->].
      pose proof (fresh_set_loc σ). congruence.
  - intros tags. eexists. split.
    { unfold tag. eapply dec_eq; first exact Href. simpl. apply lookup_insert_eq. }
    intros base s Hs.
    apply class_tags_inv in Hs as (k & l0 & Hk & Hl0 & Hs).
    apply class_tags_inv. exists k, l0. simpl. split_and!; [|done|].
    + rewrite lookup_insert_ne; first done.
      intros Heq. pose proof (fresh_class_id σ). congruence.
    + rewrite !lookup_insert_ne; first done;
        intros Heq; pose proof (fresh_set_loc σ); congruence.
Qed.

(** C6, as stated, fails: decorating an existing class changes its tag
    set. The class built from the empty store has no tag; after
    [XBlock.tag("video")] is applied to it, it has the tag ["video"]. *)
Lemma tag_changes_existing_class :
  TagCombiningMetaclass_new plain_type_check "Thumbs" [] ∅ empty_world = Return (1%positive, thumbs_world)
  ∧ class_tags thumbs_world 1 = Return ∅
  ∧ tag "video" 1%positive thumbs_world = Return (1%positive, thumbs_tagged_world)
  ∧ class_tags thumbs_tagged_world 1 = Return {["video"]}
  ∧ ¬ tag_sets_frozen plain_type_check.
Proof.
  split_and!; try (vm_compute; reflexivity).
  intros Hfrozen.
  specialize (Hfrozen thumbs_world thumbs_tagged_world 1%positive ∅).
  assert (class_tags thumbs_tagged_world 1 = Return ∅) as Habs.
  { apply Hfrozen; first by vm_compute.
    apply (step_tag plain_type_check "video" 1%positive). by vm_compute. }
  vm_compute in Habs. discriminate Habs.
Qed.

(** C6, amended. Once a class has a tag set, the set is never replaced
    and never loses a tag: [XBlock.tag] applied to the class adds the
    words of its argument to it, building further classes leaves it
    unchanged, and after any sequence of class constructions and
    decorations it contains every tag it had. *)
Theorem tag_sets_only_grow {tc} σ cls s :
  class_tags σ cls = Return s →
  (∀ tags, ∃ σ',
      tag tags cls σ = Return (cls, σ')
      ∧ class_tags σ' cls =
        Return (s ∪ list_to_set (PyStr.split (PyStr.replace "," " " tags))))
  ∧ (∀ name bases attrs c' σ',
      TagCombiningMetaclass_new tc name bases attrs σ = Return (c', σ') →
      class_tags σ' cls = Return s)
  ∧ (∀ σ', rtc (step tc) σ σ' → ∃ s', class_tags σ' cls = Return s' ∧ s ⊆ s').
Proof.
  intros Hs. split_and!.
  - intros tags. pose proof Hs as (l & Hl & Hsl)%class_tags_ref_inv.
    eexists. split; first by apply dec_eq.
    apply class_tags_inv in Hs as (k & l0 & Hk & Hl0 & Hs).
    apply class_tags_inv. exists k, l0. simpl.
    assert (l0 = l) as ->.
    { revert Hl. unfold class_tags_ref. rewrite Hk. simpl. rewrite Hl0. congruence. }
    by rewrite lookup_insert_eq.
  - eauto using metaclass_new_frame.
  - eauto using steps_grow.
Qed.

Lemma tag_sets_only_grow_witness :
  class_tags thumbs_tagged_world 1 = Return {["video"]}
  ∧ ∃ σ', tag "audio,video" 1%positive thumbs_tagged_world = Return (1%positive, σ')
          ∧ class_tags σ' 1 =
            Return ({["video"]}
                    ∪ list_to_set (PyStr.split (PyStr.replace "," " " "audio,video"))).
Proof.
  split; first by vm_compute.
  apply (tag_sets_only_grow (tc := plain_type_check) thumbs_tagged_world
           1%positive {["video"]}).
  by vm_compute.
Defined.

(** C2. When every class that plugin discovery produces has a tag set,
    [load_tagged_classes(t)] runs to the end without raising and yields
    exactly the discovered pairs whose class's tag set contains [t], in
    discovery order; every other pair is left out. A class built on a
    base that carries [t] carries [t] itself, so it is yielded. *)
Theorem load_tagged_classes_exact {tc} σ t (loaded : list (string * cid)) :
  Forall (λ p, ∃ s, class_tags σ p.2 = Return s) loaded →
  load_tagged_classes σ t loaded
    = (filter (λ p, t ∈ base_tags σ p.2) loaded, None)
  ∧ (∀ p, p ∈ (load_tagged_classes σ t loaded).1 ↔
          p ∈ loaded ∧ ∃ s, class_tags σ p.2 = Return s ∧ t ∈ s)
  ∧ (load_tagged_classes σ t loaded).1 `sublist_of` loaded
  ∧ (∀ name bases attrs base sub σ' n,
      TagCombiningMetaclass_new tc name bases attrs σ = Return (sub, σ') →
      base ∈ bases → t ∈ base_tags σ base →
      t ∈ base_tags σ' sub
      ∧ load_tagged_classes σ' t [(n, sub)] = ([(n, sub)], None)).
Proof.
  intros Hall. rewrite load_tagged_classes_eq by done. cbn [fst].
  split_and!; [done| |apply sublist_filter|].
  - intros p. rewrite list_elem_of_filter. rewrite Forall_forall in Hall.
    split.
    + intros [Ht Hp]. split; first done.
      destruct (Hall p Hp) as [s Hs]. exists s. split; first done.
      unfold base_tags in Ht. by rewrite Hs in Ht.
    + intros [Hp (s & Hs & Ht)]. split; last done.
      unfold base_tags. by rewrite Hs.
  - intros name bases attrs base sub σ' n Hnew Hbase Ht.
    destruct (metaclass_new_tags _ _ _ _ _ _ Hnew) as [_ Htags].
    assert (t ∈ base_tags σ' sub) as Hsub.
    { unfold base_tags at 1. rewrite Htags. apply elem_of_union_list.
      exists (base_tags σ base). split; last done.
      apply list_elem_of_fmap. eauto. }
    split; first done.
    rewrite load_tagged_classes_eq by (repeat constructor; eauto).
    rewrite filter_cons. cbn [snd]. by rewrite decide_True.
Qed.

Lemma load_tagged_classes_exact_witness :
  ∃ σ, demo_classes = Return ([1; 2; 3; 4]%positive, σ)
  ∧ load_tagged_classes σ "video"
      [("xblock", 1); ("videobase", 2); ("lecture", 3); ("quiz", 4)]%positive
    = ([("videobase", 2); ("lecture", 3)]%positive, None).
Proof.
  eexists. split; first by vm_compute.
  etrans.
  { eapply (load_tagged_classes_exact (tc := plain_type_check) _ "video").
    repeat constructor; eexists; vm_compute; reflexivity. }
  by vm_compute.
Defined.

(** C9. Applied to a class that has a tag set, the decorator
    [XBlock.tag(tags)] returns that same class, and the class's tag set
    afterwards holds what it held before together with exactly the
    whitespace-separated words of [tags] in which every comma has been
    replaced by a space; no tag is removed. [tag("video, audio")] adds
    both ["video"] and ["audio"]. *)
Theorem tag_adds_words σ cls s tags :
  class_tags σ cls = Return s →
  (∃ σ' s',
      tag tags cls σ = Return (cls, σ')
      ∧ class_tags σ' cls = Return s'
      ∧ (∀ w, w ∈ s' ↔ w ∈ s ∨ PyStr.is_word w (PyStr.replace "," " " tags))
      ∧ s ⊆ s')
  ∧ (∃ σ', tag "video, audio" cls σ = Return (cls, σ')
           ∧ class_tags σ' cls = Return (s ∪ {["video"; "audio"]})).
Proof.
  intros Hs.
  assert (∀ tags, ∃ σ', tag tags cls σ = Return (cls, σ')
     ∧ class_tags σ' cls =
        Return (s ∪ list_to_set (PyStr.split (PyStr.replace "," " " tags))))
    as Hdec.
  { intros tags'. pose proof Hs as (l & Hl & Hsl)%class_tags_ref_inv.
    eexists. split; first by apply dec_eq.
    unfold class_tags. revert Hl. unfold class_tags_ref.
    simpl. intros ->. simpl. by rewrite lookup_insert_eq. }
  split.
  - destruct (Hdec tags) as (σ' & Htag & Hs'). eexists σ', _.
    split_and!; [done..| |set_solver].
    intros w. rewrite elem_of_union, elem_of_list_to_set.
    by rewrite PyStrFacts.elem_of_split.
  - destruct (Hdec "video, audio") as (σ' & Htag & Hs'). exists σ'.
    split; first done. rewrite Hs'. f_equal; set_solver.
Qed.

Lemma tag_adds_words_witness :
  class_tags thumbs_world 1 = Return ∅
  ∧ ∃ σ', tag "video, audio" 1%positive thumbs_world = Return (1%positive, σ')
          ∧ class_tags σ' 1 = Return (∅ ∪ {["video"; "audio"]}).
Proof.
  split; first by vm_compute.
  apply (tag_adds_words thumbs_world 1%positive ∅ "").
  by vm_compute.
Defined.

Lemma metaclass_allocates_fresh_set_witness :
  class_tags plain_world 5 = Raise (AttributeError "_class_tags")
  ∧ ∃ cls σ' l,
    TagCombiningMetaclass_new plain_type_check "Clip" [1; 5]%positive ∅ plain_world
      = Return (cls, σ')
    ∧ class_tags_ref σ' cls = Return l
    ∧ class_tags_ref σ' 1 ≠ Return l
    ∧ ∃ σ'', tag "audio" cls σ' = Return (cls, σ'')
             ∧ class_tags σ'' 1 = Return {["video"]}.
Proof.
  split; first by vm_compute.
  destruct (metaclass_allocates_fresh_set (tc := plain_type_check) plain_world
              "Clip" [1; 5]%positive ∅)
    as (cls & σ' & l & Hnew & Href & _ & Hne & Htag); first by vm_compute.
  exists cls, σ', l. split_and!; [done..| |].
  - apply (Hne 1%positive {["video"]}). by vm_compute.
  - destruct (Htag "audio") as (σ'' & Hdec & Hframe). exists σ''.
    split; first done. apply Hframe. by vm_compute.
Defined.

End ClassesFacts.

(** ** The constructor *)
Section InitFacts.
Context {block : Type} (mixin_init : pyval → pyval → pyval → result block).

(** C8, amended. A call that leaves [scope_ids] out raises
    [TypeError('scope_ids are required')]; a call that supplies any
    value other than the [UNSET] sentinel, [None] included, hands
    [runtime], [scope_ids] and [field_data] unchanged to the mixin
    chain. Supplying [UNSET] itself is treated as leaving the argument
    out. *)
Theorem init_requires_scope_ids (runtime : pyval) (field_data : option pyval)
    (scope_ids : pyval) :
  scope_ids ≠ UNSET →
  XBlock_call block mixin_init runtime field_data None
    = Raise (TypeError "scope_ids are required")
  ∧ XBlock_call block mixin_init runtime field_data (Some scope_ids)
    = mixin_init runtime scope_ids (default PyNone field_data)
  ∧ XBlock_call block mixin_init runtime field_data (Some PyNone)
    = mixin_init runtime PyNone (default PyNone field_data)
  ∧ XBlock_call block mixin_init runtime field_data (Some UNSET)
    = Raise (TypeError "scope_ids are required").
Proof.
  intros Hset. unfold XBlock_call, XBlock_init. simpl.
  by rewrite decide_False by done.
Qed.

End InitFacts.

(** C8, as stated, fails: [scope_ids] can be supplied explicitly and
    still be refused, namely when the value supplied is the module's
    own [UNSET] object. The call then raises [TypeError] instead of
    reaching the mixin chain. *)
Lemma init_refuses_explicit_unset :
  XBlock_call _ recording_init (PyObject 1) (Some PyNone) (Some UNSET)
    = Raise (TypeError "scope_ids are required")
  ∧ recording_init (PyObject 1) UNSET PyNone = Return (PyObject 1, UNSET, PyNone)
  ∧ ¬ delegates_every_supplied_value _ recording_init.
Proof.
  split_and!; [done..|].
  intros Hall. specialize (Hall (PyObject 1) PyNone UNSET). discriminate Hall.
Qed.

Lemma init_requires_scope_ids_witness :
  PyObject 3 ≠ UNSET
  ∧ XBlock_call _ recording_init (PyObject 1) (Some (PyObject 2)) None
    = Raise (TypeError "scope_ids are required")
  ∧ XBlock_call _ recording_init (PyObject 1) (Some (PyObject 2)) (Some (PyObject 3))
    = Return (PyObject 1, PyObject 3, PyObject 2)
  ∧ XBlock_call _ recording_init (PyObject 1) (Some (PyObject 2)) (Some PyNone)
    = Return (PyObject 1, PyNone, PyObject 2)
  ∧ XBlock_call _ recording_init (PyObject 1) (Some (PyObject 2)) (Some UNSET)
    = Raise (TypeError "scope_ids are required").
Proof.
  split; first done.
  apply (init_requires_scope_ids recording_init (PyObject 1)
           (Some (PyObject 2)) (PyObject 3)).
  done.
Defined.

(** ** The deprecated wrappers *)
Section CompatFacts.
Context {exc_state : Type}.
Context (exceptions_init :
  exc_class → list pyval → list (string * pyval) → result exc_state).
Context (exceptions_bases : exc_class → list exc_class).

Lemma wrapper_isinstance (attrs : exc_state) :
  isinstance _ exceptions_bases (ExcInstance _ core_KeyValueMultiSaveError attrs)
             exceptions_KeyValueMultiSaveError
  ∧ isinstance _ exceptions_bases (ExcInstance _ core_XBlockSaveError attrs)
               exceptions_XBlockSaveError.
Proof.
  split; apply rtc_once; simpl; apply list_elem_of_singleton; done.
Qed.

(** C7. For all arguments, constructing either deprecated wrapper issues
    one [DeprecationWarning] and otherwise does what constructing the
    class of [xblock.exceptions] of the same name does with the same
    arguments: the same exception is raised, or an instance with the
    same state is produced. That instance is an instance of the current
    class. Constructing the current class issues no warning. *)
Theorem deprecated_wrappers_pass_through (args : list pyval)
    (kwargs : list (string * pyval)) (issued : list warning) :
  ((construct _ exceptions_init core_KeyValueMultiSaveError args kwargs issued).2
     = issued ++ [Warning "Please use xblock.exceptions.KeyValueMultiSaveError"
                          DeprecationWarning 2]
   ∧ (construct _ exceptions_init exceptions_KeyValueMultiSaveError
        args kwargs issued).2 = issued
   ∧ same_outcome exc_state
       (construct _ exceptions_init core_KeyValueMultiSaveError args kwargs issued).1
       (construct _ exceptions_init exceptions_KeyValueMultiSaveError
          args kwargs issued).1
   ∧ ∀ x, (construct _ exceptions_init core_KeyValueMultiSaveError
             args kwargs issued).1 = Return x →
          isinstance _ exceptions_bases x exceptions_KeyValueMultiSaveError)
  ∧ ((construct _ exceptions_init core_XBlockSaveError args kwargs issued).2
       = issued ++ [Warning "Please use xblock.exceptions.XBlockSaveError"
                            DeprecationWarning 2]
     ∧ (construct _ exceptions_init exceptions_XBlockSaveError
          args kwargs issued).2 = issued
     ∧ same_outcome exc_state
         (construct _ exceptions_init core_XBlockSaveError args kwargs issued).1
         (construct _ exceptions_init exceptions_XBlockSaveError args kwargs issued).1
     ∧ ∀ x, (construct _ exceptions_init core_XBlockSaveError
               args kwargs issued).1 = Return x →
            isinstance _ exceptions_bases x exceptions_XBlockSaveError).
Proof.
  unfold construct, init, warn. cbn [fst snd].
  split.
  - destruct (exceptions_init exceptions_KeyValueMultiSaveError args kwargs)
      as [attrs|e]; simpl; split_and!; try done.
    intros x [= <-]. apply wrapper_isinstance.
  - destruct (exceptions_init exceptions_XBlockSaveError args kwargs)
      as [attrs|e]; simpl; split_and!; try done.
    intros x [= <-]. apply wrapper_isinstance.
Qed.

End CompatFacts.

Lemma deprecated_wrappers_pass_through_witness :
  (construct _ keep_args core_XBlockSaveError [PyObject 1; PyObject 2] [] []).2
    = [Warning "Please use xblock.exceptions.XBlockSaveError" DeprecationWarning 2]
  ∧ (construct _ keep_args core_XBlockSaveError [PyObject 1; PyObject 2] [] []).1
    = Return (ExcInstance _ core_XBlockSaveError [PyObject 1; PyObject 2])
  ∧ isinstance _ (λ _, [other_class "Exception"])
      (ExcInstance _ core_XBlockSaveError [PyObject 1; PyObject 2])
      exceptions_XBlockSaveError.
Proof.
  pose proof (deprecated_wrappers_pass_through keep_args
                (λ _, [other_class "Exception"]) [PyObject 1; PyObject 2] [] [])
    as (_ & Hwarn & _ & _ & Hinst).
  split_and!; [exact Hwarn|reflexivity|].
  apply Hinst. reflexivity.
Defined.

(** ** The batched save *)
Module ScopedStorageFacts.
Import ScopedStorage.
Section SaveFacts.
Context {value raw failure : Type}.
Context (to_json : string → value → raw).
Context (rejects : string → option failure).

Lemma lookup_fields_to_save (b : instance value) f :
  fields_to_save value raw to_json b !! f =
  if decide (f ∈ dirty value b) then to_json f <$> cache value b !! f else None.
Proof.
  unfold fields_to_save. rewrite map_lookup_imap.
  destruct (cache value b !! f); simpl; by case_decide.
Qed.

(** Assigning a field keeps every dirty field cached. *)
Lemma set_field_cached (f : string) (v : value) (b : instance value) :
  dirty value b ⊆ dom (cache value b) →
  dirty value (set_field value f v b) ⊆ dom (cache value (set_field value f v b)).
Proof. unfold set_field. simpl. rewrite dom_insert_L. set_solver. Qed.

(** C4. A block whose dirty fields all have a cached value is saved
    against a reachable store that refuses the write of field [k] and of
    no other dirty field. The save signals a partial failure whose
    failure map holds exactly [k]; afterwards [k] is still dirty, no
    other field is, and every other field that was dirty is in the
    store. *)
Theorem save_partial_failure (b : instance value) (data : gmap string raw)
    (k : string) (e : failure) :
  dirty value b ⊆ dom (cache value b) →
  k ∈ dirty value b →
  rejects k = Some e →
  (∀ f, f ∈ dirty value b → f ≠ k → rejects f = None) →
  ∃ b' data',
    save value raw failure to_json true rejects b data
      = (PartialSaveError failure {[k := e]}, b', data')
    ∧ (∀ f, f ≠ k → f ∉ dirty value b')
    ∧ k ∈ dirty value b'
    ∧ cache value b' = cache value b
    ∧ ∀ f v, f ∈ dirty value b → f ≠ k → cache value b !! f = Some v →
             data' !! f = Some (to_json f v).
Proof.
  intros Hcached Hk Hrej Hothers.
  assert (map_imap (λ f (_ : raw), rejects f) (fields_to_save value raw to_json b)
          = {[k := e]}) as Hfail.
  { apply map_eq. intros f. rewrite map_lookup_imap, lookup_fields_to_save.
    destruct (decide (f = k)) as [->|Hne].
    - rewrite lookup_singleton_eq, decide_True by done.
      apply Hcached, elem_of_dom in Hk as [v ->]. done.
    - rewrite lookup_singleton_ne by done. case_decide as Hd; last done.
      destruct (cache value b !! f); simpl; auto. }
  unfold save, set_many. rewrite Hfail.
  rewrite decide_False by (rewrite dom_singleton_L; set_solver).
  eexists _, _. split; first reflexivity. cbn [dirty cache].
  rewrite dom_singleton_L.
  assert (dom (fields_to_save value raw to_json b) = dirty value b) as Hdom.
  { apply set_eq. intros f. rewrite elem_of_dom, lookup_fields_to_save.
    case_decide as Hd.
    - pose proof Hd as [v ->]%Hcached%elem_of_dom. simpl. split; eauto.
    - split; [by intros [? ?]|done]. }
  rewrite Hdom. split_and!; [set_solver|set_solver|done|].
  intros f v Hd Hne Hv. apply lookup_union_Some_l.
  rewrite map_lookup_imap, lookup_fields_to_save, decide_True, Hv by done.
  simpl. by rewrite (Hothers f).
Qed.

End SaveFacts.

Lemma save_partial_failure_witness :
  ∃ b' data',
    save string string string (λ _ v, v) true no_grade edited_block ∅
      = (PartialSaveError string {["grade" := "read-only"]}, b', data')
    ∧ (∀ f, f ≠ "grade" → f ∉ dirty string b')
    ∧ "grade" ∈ dirty string b'
    ∧ cache string b' = cache string edited_block
    ∧ ∀ f v, f ∈ dirty string edited_block → f ≠ "grade" →
             cache string edited_block !! f = Some v →
             data' !! f = Some v.
Proof.
  apply (save_partial_failure (λ _ v, v) no_grade edited_block ∅ "grade" "read-only").
  - apply (bool_decide_unpack _). by vm_compute.
  - apply (bool_decide_unpack _). by vm_compute.
  - reflexivity.
  - intros f _ Hne. unfold no_grade. by rewrite decide_False.
Defined.

End ScopedStorageFacts.

(* ====================================================================== *)
(** * Further properties of the module *)
(* ====================================================================== *)

(** ** More on strings *)
Module PyStrMore.
Import PyStr PyStrFacts.

Lemma app_assoc (x y z : string) : (x +:+ y) +:+ z = x +:+ y +:+ z.
Proof.
  induction x as [|a x IH]; first done.
  by rewrite !app_cons, IH.
Qed.

Lemma mentions_app a x y : mentions a (x +:+ y) = mentions a x || mentions a y.
Proof.
  induction x as [|b x IH]; first done.
  rewrite app_cons. cbn [mentions]. rewrite IH. by destruct (bool_decide (a = b)).
Qed.

Lemma replace_app old new x y :
  replace old new (x +:+ y) = replace old new x +:+ replace old new y.
Proof.
  induction x as [|b x IH]; first done.
  rewrite app_cons. cbn [replace]. by rewrite IH, app_cons.
Qed.

(** A piece of [replace old new s] is the image of a piece of [s]. *)
Lemma replace_app_inv old new s x y :
  replace old new s = x +:+ y →
  ∃ s1 s2, s = s1 +:+ s2 ∧ replace old new s1 = x ∧ replace old new s2 = y.
Proof.
  revert s. induction x as [|b x IH]; intros s Heq.
  - by exists "", s.
  - destruct s as [|c s]; first done.
    rewrite app_cons in Heq. cbn [replace] in Heq. injection Heq as Hb Heq.
    destruct (IH _ Heq) as (s1 & s2 & -> & <- & <-).
    exists (String c s1), s2. rewrite app_cons. cbn [replace]. by rewrite Hb.
Qed.

Lemma replace_comma_clean s : mentions "," (replace "," " " s) = false.
Proof.
  induction s as [|a s IH]; first done.
  cbn [replace mentions]. rewrite IH. case_decide as Ha; first done.
  rewrite bool_decide_eq_false_2; [done|congruence].
Qed.

(** Where the result has no space, nothing was replaced. *)
Lemma replace_comma_id s :
  no_space (replace "," " " s) = true → replace "," " " s = s.
Proof.
  induction s as [|a s IH]; first done.
  cbn [replace no_space]. intros [Ha Hs]%andb_prop. rewrite (IH Hs).
  case_decide as Hc; last done. by vm_compute in Ha.
Qed.

Lemma no_space_app x y : no_space (x +:+ y) = no_space x && no_space y.
Proof.
  induction x as [|a x IH]; first done.
  rewrite app_cons. cbn [no_space]. rewrite IH. by destruct (isspace a).
Qed.

(** A blank between two strings separates their words. *)
Lemma split_go_app_blank a x y :
  isspace a = true →
  split_go (x +:+ String a y) = ((split_go x).1, (split_go x).2 ++ split y).
Proof.
  intros Ha. induction x as [|b x IH].
  - rewrite app_nil_l. cbn [split_go]. rewrite Ha. unfold split.
    by destruct (split_go y).
  - rewrite app_cons. cbn [split_go]. rewrite IH.
    destruct (split_go x) as [w ws]. cbn [fst snd].
    destruct (isspace b); cbn [fst snd]; last done.
    by case_decide.
Qed.

Lemma split_app_blank a x y :
  isspace a = true → split (x +:+ String a y) = split x ++ split y.
Proof.
  intros Ha. unfold split at 1 2. rewrite (split_go_app_blank a) by done.
  destruct (split_go x) as [w ws]. cbn [fst snd]. by case_decide.
Qed.

Lemma contains_slash_dot_has_slash s :
  contains "/." s = true → mentions "/" s = true.
Proof.
  induction s as [|a s IH]; first done.
  cbn [contains mentions]. intros [Hpre|Hin]%orb_prop.
  - simpl in Hpre. case_decide as Ha; last done. subst a. done.
  - rewrite (IH Hin). by destruct (bool_decide _).
Qed.

End PyStrMore.

(** ** More on the local-resource whitelist *)
Section LocalResourceMore.
Context {stream : Type} (resource_stream : string → string → result stream).

Lemma contains_under_public rest :
  PyStr.contains "/." ("public/" +:+ rest)
  = PyStr.startswith "." rest || PyStr.contains "/." rest.
Proof.
  change ("public/" +:+ rest) with
    (String "p" (String "u" (String "b" (String "l" (String "i"
       (String "c" (String "/" rest))))))).
  cbn [PyStr.contains]. by destruct rest.
Qed.

Lemma startswith_under_public rest :
  PyStr.startswith "public/" ("public/" +:+ rest) = true.
Proof. done. Qed.

(** X1. Below the public folder the whitelist looks at nothing but dots
    after slashes: [open_local_resource("public/" + rest)] is refused,
    with the "safe file names" message, when [rest] begins with a dot or
    contains ["/."], and is handed to the resource loader otherwise. A
    [rest] without any slash that does not begin with a dot is therefore
    always served, whatever other characters it holds. *)
Theorem open_under_public (cls_module rest : string) :
  open_local_resource stream resource_stream cls_module ("public/" +:+ rest)
  = (if PyStr.startswith "." rest || PyStr.contains "/." rest
     then Raise (DisallowedFileError "Only safe file names are allowed: %r"
                   ("public/" +:+ rest))
     else resource_stream cls_module ("public/" +:+ rest))
  ∧ (PyStr.mentions "/" rest = false → PyStr.startswith "." rest = false →
     passes_check stream resource_stream cls_module ("public/" +:+ rest)).
Proof.
  unfold passes_check, open_local_resource.
  rewrite startswith_under_public, contains_under_public. cbn [negb].
  split; first done.
  intros Hslash ->. cbn [orb].
  destruct (PyStr.contains "/." rest) eqn:Hc; last done.
  apply PyStrMore.contains_slash_dot_has_slash in Hc. congruence.
Qed.

End LocalResourceMore.

Lemma open_under_public_witness :
  open_local_resource _ (λ m u, Return (m, u)) "thumbs" "public/a\..\b.png"
  = Return ("thumbs", "public/a\..\b.png").
Proof.
  apply (open_under_public (λ m u, Return (m, u)) "thumbs" "a\..\b.png");
    reflexivity.
Defined.

(** ** More on class tag sets *)
Module ClassesMore.
Import Classes ClassesFacts.

Lemma world_eq σ1 σ2 :
  sets σ1 = sets σ2 → classes σ1 = classes σ2 → σ1 = σ2.
Proof. destruct σ1, σ2. simpl. by intros -> ->. Qed.

Lemma class_tags_ref_inv' σ cls l :
  class_tags_ref σ cls = Return l ↔
  ∃ k, classes σ !! cls = Some k ∧ cls_dict k !! "_class_tags" = Some l.
Proof.
  unfold class_tags_ref. split.
  - destruct (classes σ !! cls) as [k|]; simpl; last done.
    destruct (cls_dict k !! "_class_tags") eqn:?; simpl; last done.
    intros [= ->]. eauto.
  - intros (k & -> & Hl). simpl. by rewrite Hl.
Qed.

(** What decorating does to the tag set of any class, in terms of the
    set object each class holds. *)
Lemma dec_class_tags tags cls σ σ' l c0 l0 s0 :
  dec tags cls σ = Return (cls, σ') →
  class_tags_ref σ cls = Return l →
  class_tags_ref σ c0 = Return l0 → sets σ !! l0 = Some s0 →
  class_tags_ref σ' c0 = Return l0
  ∧ class_tags σ' c0 =
    Return (if decide (l0 = l) then s0 ∪ list_to_set (words tags) else s0).
Proof.
  intros (l' & s & Hl' & Hs & _ & ->)%dec_inv Hl Hl0 Hs0.
  assert (l' = l) as -> by congruence.
  split; first done.
  unfold class_tags. replace (class_tags_ref _ c0) with (@Return positive l0).
  simpl. case_decide as Hd.
  - subst l0. rewrite lookup_insert_eq. congruence.
  - by rewrite lookup_insert_ne, Hs0.
Qed.

(** X2. [XBlock.tag], applied twice with the same argument, gives the
    store it gives when applied once. *)
Theorem tag_idempotent tags cls σ σ' :
  tag tags cls σ = Return (cls, σ') →
  tag tags cls σ' = Return (cls, σ').
Proof.
  intros (l & s & Hl & Hs & _ & ->)%dec_inv.
  unfold tag. erewrite dec_eq; [|exact Hl|apply lookup_insert_eq].
  do 2 f_equal. apply world_eq; simpl; last done.
  rewrite insert_insert_eq. f_equal. set_solver.
Qed.

Lemma tag_idempotent_witness :
  tag "video" 1%positive thumbs_world = Return (1%positive, thumbs_tagged_world)
  ∧ tag "video" 1%positive thumbs_tagged_world
    = Return (1%positive, thumbs_tagged_world).
Proof.
  assert (tag "video" 1%positive thumbs_world
          = Return (1%positive, thumbs_tagged_world)) as H by (by vm_compute).
  split; first exact H.
  exact (tag_idempotent "video" 1%positive thumbs_world thumbs_tagged_world H).
Defined.

(** X3. Two decorations commute: applying [XBlock.tag(a)] to one class
    and then [XBlock.tag(b)] to another (or the same) class leaves the
    store that the opposite order leaves. *)
Theorem tag_commute a b c1 c2 σ σ1 σ12 :
  tag a c1 σ = Return (c1, σ1) →
  tag b c2 σ1 = Return (c2, σ12) →
  ∃ σ2, tag b c2 σ = Return (c2, σ2) ∧ tag a c1 σ2 = Return (c1, σ12).
Proof.
  intros (l1 & s1 & Hl1 & Hs1 & _ & ->)%dec_inv.
  intros (l2 & s2 & Hl2 & Hs2 & _ & ->)%dec_inv.
  change (class_tags_ref _ c2) with (class_tags_ref σ c2) in Hl2.
  simpl in Hs2. unfold tag.
  destruct (decide (l2 = l1)) as [->|Hne].
  - rewrite lookup_insert_eq in Hs2. injection Hs2 as <-.
    eexists. split; first by eapply dec_eq.
    erewrite dec_eq; [|exact Hl1|apply lookup_insert_eq].
    do 2 f_equal. apply world_eq; simpl; last done.
    rewrite !insert_insert_eq. f_equal. set_solver.
  - rewrite lookup_insert_ne in Hs2 by done.
    eexists. split; first by eapply dec_eq.
    erewrite dec_eq;
      [|exact Hl1|simpl; rewrite lookup_insert_ne by done; exact Hs1].
    do 2 f_equal. apply world_eq; simpl; last done.
    by apply insert_insert_ne.
Qed.

Lemma tag_commute_witness :
  ∃ σ2, tag "audio" 1%positive thumbs_world = Return (1%positive, σ2)
        ∧ ∃ σ12, tag "video" 1%positive σ2 = Return (1%positive, σ12)
                 ∧ tag "audio" 1%positive thumbs_tagged_world
                   = Return (1%positive, σ12).
Proof.
  destruct (tag_commute "video" "audio" 1%positive 1%positive thumbs_world
              thumbs_tagged_world
              (World {[1%positive := {["video"; "audio"]}]} (classes thumbs_world)))
    as (σ2 & H2 & H12); [by vm_compute..|].
  exists σ2. split; first exact H2. eexists. split; first exact H12.
  by vm_compute.
Defined.

Lemma words_join a b : words (a +:+ String "," b) = words a ++ words b.
Proof.
  rewrite PyStrMore.replace_app. cbn [PyStr.replace].
  rewrite decide_True by done. by apply PyStrMore.split_app_blank.
Qed.

(** X4. Stacking two decorators on a class has the effect of one
    decorator whose argument joins the two with a comma:
    [tag(a)] followed by [tag(b)] leaves the store that [tag(a + "," + b)]
    leaves. *)
Theorem tag_stack a b cls σ σ1 σ2 :
  tag a cls σ = Return (cls, σ1) →
  tag b cls σ1 = Return (cls, σ2) →
  tag (a +:+ String "," b) cls σ = Return (cls, σ2).
Proof.
  intros (l & s & Hl & Hs & _ & ->)%dec_inv.
  intros (l2 & s2 & Hl2 & Hs2 & _ & ->)%dec_inv.
  change (class_tags_ref _ cls) with (class_tags_ref σ cls) in Hl2.
  assert (l2 = l) as -> by congruence.
  simpl in Hs2. rewrite lookup_insert_eq in Hs2. injection Hs2 as <-.
  unfold tag. erewrite dec_eq by done.
  do 2 f_equal. apply world_eq; simpl; last done.
  rewrite insert_insert_eq, words_join, list_to_set_app_L. f_equal. set_solver.
Qed.

Lemma tag_stack_witness :
  ∃ σ2, tag "audio" 1%positive thumbs_tagged_world = Return (1%positive, σ2)
        ∧ tag "video,audio" 1%positive thumbs_world = Return (1%positive, σ2).
Proof.
  eexists. split; first by vm_compute.
  apply (tag_stack "video" "audio" 1%positive thumbs_world thumbs_tagged_world);
    by vm_compute.
Defined.

(** X5. Every tag that [XBlock.tag(tags)] adds to a class is a piece of
    [tags] itself: a non-empty stretch of the argument that holds no
    comma and no whitespace. *)
Theorem tag_adds_clean_words σ cls s tags σ' s' w :
  class_tags σ cls = Return s →
  tag tags cls σ = Return (cls, σ') →
  class_tags σ' cls = Return s' →
  w ∈ s' → w ∉ s →
  w ≠ "" ∧ PyStr.no_space w = true ∧ PyStr.mentions "," w = false
  ∧ ∃ pre post, tags = pre +:+ w +:+ post.
Proof.
  intros Hs Htag Hs' Hw Hnew.
  pose proof Hs as (l & Hl & Hsl)%class_tags_ref_inv.
  destruct (dec_class_tags _ _ _ _ _ _ _ _ Htag Hl Hl Hsl) as [_ Hs''].
  rewrite decide_True in Hs'' by done.
  assert (s' = s ∪ list_to_set (words tags)) as -> by congruence.
  apply elem_of_union in Hw as [?|Hw]; first done.
  apply elem_of_list_to_set, PyStrFacts.elem_of_split in Hw
    as (Hne & Hns & pre & post & Heq & _ & _).
  split_and!; [done..| |].
  - pose proof (PyStrMore.replace_comma_clean tags) as Hclean.
    rewrite Heq, !PyStrMore.mentions_app in Hclean.
    by apply orb_false_elim in Hclean as [_ [? _]%orb_false_elim].
  - apply PyStrMore.replace_app_inv in Heq as (s1 & s2 & -> & _ & Heq).
    apply PyStrMore.replace_app_inv in Heq as (s3 & s4 & -> & Hw3 & _).
    exists s1, s4. f_equal. f_equal.
    rewrite <- Hw3 in Hns. apply PyStrMore.replace_comma_id in Hns. congruence.
Qed.

Lemma tag_adds_clean_words_witness :
  "audio" ≠ "" ∧ PyStr.no_space "audio" = true ∧ PyStr.mentions "," "audio" = false
  ∧ ∃ pre post, " video ,audio, " = pre +:+ "audio" +:+ post.
Proof.
  apply (tag_adds_clean_words thumbs_world 1%positive ∅ " video ,audio, "
           (World {[1%positive := {["video"; "audio"]}]} (classes thumbs_world))
           {["video"; "audio"]} "audio").
  - by vm_compute.
  - by vm_compute.
  - by vm_compute.
  - set_solver.
  - set_solver.
Defined.

(** Building a class moves no existing class to another set object and
    leaves the existing set objects as they are. *)
Lemma metaclass_new_ref_frame {tc} name bases attrs σ cls σ' c0 l0 :
  TagCombiningMetaclass_new tc name bases attrs σ = Return (cls, σ') →
  class_tags_ref σ c0 = Return l0 →
  class_tags_ref σ' c0 = Return l0.
Proof.
  intros [-> ->]%metaclass_new_inv.
  rewrite !class_tags_ref_inv'. intros (k & Hk & Hl). exists k. simpl.
  split; last done. rewrite lookup_insert_ne; first done.
  intros Heq. pose proof (fresh_class_id σ). congruence.
Qed.

Lemma metaclass_new_sets_frame {tc} name bases attrs σ cls σ' l0 s0 :
  TagCombiningMetaclass_new tc name bases attrs σ = Return (cls, σ') →
  sets σ !! l0 = Some s0 →
  sets σ' !! l0 = Some s0 ∧ l0 ≠ fresh (dom (sets σ)).
Proof.
  intros [-> ->]%metaclass_new_inv Hs. simpl.
  assert (l0 ≠ fresh (dom (sets σ))) as Hne.
  { intros ->. pose proof (fresh_set_loc σ). congruence. }
  by rewrite lookup_insert_ne.
Qed.

(** X6. Inheritance of tags is a snapshot taken when the subclass is
    built: decorating a base afterwards adds the words to the base and
    leaves the subclass with exactly the union it was built with. *)
Theorem tag_after_subclassing {tc} σ base s name bases attrs sub σ1 tags :
  class_tags σ base = Return s →
  TagCombiningMetaclass_new tc name bases attrs σ = Return (sub, σ1) →
  ∃ σ2, tag tags base σ1 = Return (base, σ2)
        ∧ class_tags σ2 base = Return (s ∪ list_to_set (words tags))
        ∧ class_tags σ2 sub = Return (⋃ (base_tags σ <$> bases)).
Proof.
  intros (lb & Hlb & Hsb)%class_tags_ref_inv Hnew.
  pose proof (metaclass_new_ref_frame _ _ _ _ _ _ _ _ Hnew Hlb) as Hlb1.
  destruct (metaclass_new_sets_frame _ _ _ _ _ _ _ _ Hnew Hsb) as [Hsb1 Hne].
  destruct (metaclass_new_tags _ _ _ _ _ _ Hnew) as [Hls Hsub].
  pose proof Hsub as (l' & Hl' & Hsl)%class_tags_ref_inv.
  assert (l' = fresh (dom (sets σ))) as -> by congruence.
  pose proof (dec_eq tags base σ1 lb s Hlb1 Hsb1) as Hdec.
  eexists. split; first exact Hdec. split.
  - destruct (dec_class_tags _ _ _ _ _ _ _ _ Hdec Hlb1 Hlb1 Hsb1) as [_ ->].
    by rewrite decide_True.
  - destruct (dec_class_tags _ _ _ _ _ _ _ _ Hdec Hlb1 Hls Hsl) as [_ ->].
    by rewrite decide_False.
Qed.

Lemma tag_after_subclassing_witness :
  ∃ sub σ1 σ2,
    TagCombiningMetaclass_new plain_type_check "Clip" [1%positive] ∅ thumbs_world
      = Return (sub, σ1)
    ∧ tag "video" 1%positive σ1 = Return (1%positive, σ2)
    ∧ class_tags σ2 1 = Return (∅ ∪ list_to_set (words "video"))
    ∧ class_tags σ2 sub = Return (⋃ (base_tags thumbs_world <$> [1%positive])).
Proof.
  eexists _, _.
  assert (TagCombiningMetaclass_new plain_type_check "Clip" [1%positive] ∅
            thumbs_world = Return (_, _)) as Hnew by (by vm_compute).
  destruct (tag_after_subclassing thumbs_world 1%positive ∅ "Clip" [1%positive]
              ∅ _ _ "video" ltac:(by vm_compute) Hnew) as (σ2 & H1 & H2 & H3).
  exists σ2. by split_and!.
Defined.

(** X7. A tag a class inherited when it was built stays with it: if a
    base carries [t] when the subclass is built, the subclass carries
    [t] after any later class constructions and decorations. *)
Theorem inherited_tag_stays {tc} σ t base name bases attrs sub σ1 σ2 :
  t ∈ base_tags σ base → base ∈ bases →
  TagCombiningMetaclass_new tc name bases attrs σ = Return (sub, σ1) →
  rtc (step tc) σ1 σ2 →
  t ∈ base_tags σ2 sub.
Proof.
  intros Ht Hbase Hnew Hsteps.
  destruct (metaclass_new_tags _ _ _ _ _ _ Hnew) as [_ Hsub].
  destruct (steps_grow _ _ _ _ Hsteps Hsub) as (s2 & Hs2 & Hsubset).
  unfold base_tags at 1. rewrite Hs2. apply Hsubset.
  apply elem_of_union_list. exists (base_tags σ base). split; last done.
  apply list_elem_of_fmap. eauto.
Qed.

Lemma inherited_tag_stays_witness :
  ∃ sub σ1 σ2,
    TagCombiningMetaclass_new plain_type_check "Clip" [1%positive] ∅ thumbs_tagged_world
      = Return (sub, σ1)
    ∧ tag "audio" sub σ1 = Return (sub, σ2)
    ∧ "video" ∈ base_tags σ2 sub.
Proof.
  eexists _, _, _.
  split; first by vm_compute. split; first by vm_compute.
  eapply (inherited_tag_stays (tc := plain_type_check) thumbs_tagged_world
            "video" 1%positive "Clip" [1%positive] ∅).
  - apply (bool_decide_unpack _). by vm_compute.
  - apply list_elem_of_here.
  - by vm_compute.
  - apply rtc_once. eapply (step_tag plain_type_check "audio" 2%positive). by vm_compute.
Defined.

(** X8. The tag set a class is built with does not depend on the order
    in which its bases are written: when the class statement is
    accepted with the bases in one order and in another, the two
    classes get equal tag sets. *)
Theorem bases_order_irrelevant {tc} σ n1 n2 (bases1 bases2 : list cid)
    a1 a2 c1 c2 σ1 σ2 :
  bases1 ≡ₚ bases2 →
  TagCombiningMetaclass_new tc n1 bases1 a1 σ = Return (c1, σ1) →
  TagCombiningMetaclass_new tc n2 bases2 a2 σ = Return (c2, σ2) →
  class_tags σ1 c1 = class_tags σ2 c2.
Proof.
  intros Hperm [_ ->]%metaclass_new_tags [_ ->]%metaclass_new_tags.
  f_equal. apply set_eq. intros t. rewrite !elem_of_union_list.
  split; intros (X & (b & -> & Hb)%list_elem_of_fmap & Ht);
    exists (base_tags σ b); (split; last done);
    apply list_elem_of_fmap; exists b; (split; first done).
  - by rewrite <- Hperm.
  - by rewrite Hperm.
Qed.

Lemma bases_order_irrelevant_witness :
  ∃ σ c1 c2 σ1 σ2,
    demo_classes = Return ([1; 2; 3; 4]%positive, σ)
    ∧ TagCombiningMetaclass_new plain_type_check "A" [2; 4]%positive ∅ σ
      = Return (c1, σ1)
    ∧ TagCombiningMetaclass_new plain_type_check "B" [4; 2]%positive ∅ σ
      = Return (c2, σ2)
    ∧ class_tags σ1 c1 = class_tags σ2 c2.
Proof.
  eexists _, _, _, _, _.
  split; first by vm_compute.
  lazymatch goal with
  | |- TagCombiningMetaclass_new _ _ _ _ ?w = _ ∧ _ => pose (σ0 := w)
  end.
  split; first by vm_compute. split; first by vm_compute.
  eapply (bases_order_irrelevant (tc := plain_type_check) σ0 "A" "B"
            [2; 4]%positive [4; 2]%positive ∅ ∅).
  - apply Permutation_swap.
  - by vm_compute.
  - by vm_compute.
Defined.

(** X9. [load_tagged_classes] does not guard the attribute access the
    way the metaclass does: at the first discovered class without
    [_class_tags] the generator stops with [AttributeError], having
    yielded the matching pairs that came before; what discovery lists
    after that class is never looked at. *)
Theorem load_stops_at_untagged σ t (pre post : list (string * cid)) n c e :
  Forall (λ p, ∃ s, class_tags σ p.2 = Return s) pre →
  class_tags σ c = Raise e →
  load_tagged_classes σ t (pre ++ (n, c) :: post)
  = (filter (λ p, t ∈ base_tags σ p.2) pre, Some (AttributeError "_class_tags")).
Proof.
  intros Hpre Hc. induction Hpre as [|[m d] pre [s Hs] _ IH].
  - simpl. rewrite Hc. by apply class_tags_raise in Hc as ->.
  - cbn [app load_tagged_classes snd] in *. rewrite Hs, IH, filter_cons.
    assert (base_tags σ (m, d).2 = s) as ->
      by (unfold base_tags; simpl; by rewrite Hs).
    by case_decide.
Qed.

Lemma load_stops_at_untagged_witness :
  load_tagged_classes thumbs_tagged_world "video"
    ([("thumbs", 1%positive)] ++ ("ghost", 9%positive) :: [("again", 1%positive)])
  = (filter (λ p, "video" ∈ base_tags thumbs_tagged_world p.2)
       [("thumbs", 1%positive)],
     Some (AttributeError "_class_tags")).
Proof.
  apply (load_stops_at_untagged thumbs_tagged_world "video" [("thumbs", 1%positive)]
           [("again", 1%positive)] "ghost" 9%positive (AttributeError "_class_tags")).
  - repeat constructor. eexists. by vm_compute.
  - by vm_compute.
Defined.

Lemma has_tags_steps {tc} σ σ' (loaded : list (string * cid)) :
  rtc (step tc) σ σ' →
  Forall (λ p, ∃ s, class_tags σ p.2 = Return s) loaded →
  Forall (λ p, ∃ s, class_tags σ' p.2 = Return s) loaded.
Proof.
  intros Hsteps Hall. eapply Forall_impl; first exact Hall.
  intros p [s Hs].
  destruct (steps_grow _ _ _ _ Hsteps Hs) as (s' & Hs' & _). eauto.
Qed.

Lemma elem_of_load σ t (loaded : list (string * cid)) p :
  Forall (λ p, ∃ s, class_tags σ p.2 = Return s) loaded →
  p ∈ (load_tagged_classes σ t loaded).1 ↔ p ∈ loaded ∧ t ∈ base_tags σ p.2.
Proof.
  intros Hall. rewrite load_tagged_classes_eq by done. cbn [fst].
  rewrite list_elem_of_filter. tauto.
Qed.

(** X10. Listings only grow: when every discovered class has a tag set,
    a pair that [load_tagged_classes(t)] yields is still yielded, and
    the generator still ends normally, after any further class
    constructions and decorations. *)
Theorem load_monotone {tc} σ σ' t (loaded : list (string * cid)) :
  Forall (λ p, ∃ s, class_tags σ p.2 = Return s) loaded →
  rtc (step tc) σ σ' →
  (load_tagged_classes σ' t loaded).2 = None
  ∧ ∀ p, p ∈ (load_tagged_classes σ t loaded).1 →
         p ∈ (load_tagged_classes σ' t loaded).1.
Proof.
  intros Hall Hsteps.
  pose proof (has_tags_steps _ _ _ Hsteps Hall) as Hall'.
  split; first by rewrite load_tagged_classes_eq.
  intros p. rewrite !elem_of_load by done. intros [Hp Ht]. split; first done.
  rewrite Forall_forall in Hall. destruct (Hall p Hp) as [s Hs].
  destruct (steps_grow _ _ _ _ Hsteps Hs) as (s' & Hs' & Hsub).
  unfold base_tags in *. rewrite Hs in Ht. rewrite Hs'. auto.
Qed.

Lemma load_monotone_witness :
  ∃ σ', tag "audio" 1%positive thumbs_tagged_world = Return (1%positive, σ')
  ∧ (load_tagged_classes σ' "video" [("thumbs", 1%positive)]).2 = None
  ∧ ∀ p, p ∈ (load_tagged_classes thumbs_tagged_world "video"
                [("thumbs", 1%positive)]).1 →
         p ∈ (load_tagged_classes σ' "video" [("thumbs", 1%positive)]).1.
Proof.
  eexists. split; first by vm_compute.
  apply (load_monotone (tc := plain_type_check) thumbs_tagged_world).
  - repeat constructor. eexists. by vm_compute.
  - apply rtc_once. eapply (step_tag plain_type_check "audio" 1%positive). by vm_compute.
Defined.

(** X11. Decorating makes a class discoverable: after
    [XBlock.tag(tags)] has been applied to a class, every listing
    [load_tagged_classes(w)] for a word [w] of [tags] yields the pairs
    discovery produces for that class. *)
Theorem tag_then_load σ tags cls σ' (loaded : list (string * cid)) n w :
  Forall (λ p, ∃ s, class_tags σ p.2 = Return s) loaded →
  tag tags cls σ = Return (cls, σ') →
  (n, cls) ∈ loaded →
  w ∈ words tags →
  (n, cls) ∈ (load_tagged_classes σ' w loaded).1.
Proof.
  intros Hall Htag Hin Hw.
  apply elem_of_load.
  { eapply Forall_impl; first exact Hall. intros p [s Hs].
    destruct (dec_grows _ _ _ _ _ _ _ Htag Hs) as (s' & Hs' & _). eauto. }
  split; first done. cbn [snd].
  pose proof Htag as (l & s & Hl & Hs & _ & _)%dec_inv.
  destruct (dec_class_tags _ _ _ _ _ _ _ _ Htag Hl Hl Hs) as [_ Hs'].
  unfold base_tags. rewrite Hs', decide_True by done.
  apply elem_of_union_r, elem_of_list_to_set, Hw.
Qed.

Lemma tag_then_load_witness :
  ∃ σ', tag "video, audio" 1%positive thumbs_world = Return (1%positive, σ')
  ∧ ("thumbs", 1%positive)
      ∈ (load_tagged_classes σ' "audio" [("thumbs", 1%positive)]).1.
Proof.
  eexists. split; first by vm_compute.
  apply (tag_then_load thumbs_world "video, audio" 1%positive).
  - repeat constructor. eexists. by vm_compute.
  - by vm_compute.
  - apply list_elem_of_here.
  - apply (bool_decide_unpack _). by vm_compute.
Defined.

(** The invariant of the stores a program reaches. *)
Lemma world_ok_empty : world_ok empty_world.
Proof.
  split.
  - intros cls k Hk. simpl in Hk. by rewrite lookup_empty in Hk.
  - intros c1 c2 l (k & Hk & _)%class_tags_ref_inv'. simpl in Hk.
    by rewrite lookup_empty in Hk.
Qed.

Lemma world_ok_step {tc} σ σ' : step tc σ σ' → world_ok σ → world_ok σ'.
Proof.
  intros Hstep [Hlive Hinj].
  destruct Hstep as [name bases attrs σ cls σ' Hnew|tags cls σ σ' Htag].
  - apply metaclass_new_inv in Hnew as [-> ->].
    assert (∀ c l, class_tags_ref σ c = Return l → l ≠ fresh (dom (sets σ)))
      as Hold.
    { intros c l (k & Hk & Hl)%class_tags_ref_inv' ->.
      destruct (Hlive _ _ Hk) as (l' & Hl' & [s Hs]).
      pose proof (fresh_set_loc σ). congruence. }
    split.
    + intros c k. simpl. destruct (decide (c = fresh (dom (classes σ)))) as [->|Hne].
      * rewrite lookup_insert_eq. intros [= <-]. simpl.
        exists (fresh (dom (sets σ))). by rewrite !lookup_insert_eq.
      * rewrite lookup_insert_ne by done. intros Hk.
        destruct (Hlive _ _ Hk) as (l & Hl & Hs). exists l. split; first done.
        by apply lookup_insert_is_Some'; right.
    + assert (∀ c l,
        class_tags_ref
          (World (<[fresh (dom (sets σ)) := ⋃ (base_tags σ <$> bases)]> (sets σ))
             (<[fresh (dom (classes σ)) :=
                  Class name bases (<["_class_tags" := fresh (dom (sets σ))]> attrs)]>
                (classes σ))) c = Return l →
        (c = fresh (dom (classes σ)) ∧ l = fresh (dom (sets σ)))
        ∨ (c ≠ fresh (dom (classes σ)) ∧ class_tags_ref σ c = Return l)) as Hcases.
      { intros c l (k & Hk & Hl)%class_tags_ref_inv'. simpl in Hk.
        destruct (decide (c = fresh (dom (classes σ)))) as [->|Hne].
        - left. rewrite lookup_insert_eq in Hk. injection Hk as <-.
          simpl in Hl. rewrite lookup_insert_eq in Hl. by injection Hl as <-.
        - right. rewrite lookup_insert_ne in Hk by done. split; first done.
          apply class_tags_ref_inv'. eauto. }
      intros c1 c2 l [[-> ->]|[Hn1 H1]]%Hcases [[-> Hl]|[Hn2 H2]]%Hcases;
        [done| | |by eapply Hinj].
      * by apply Hold in H2.
      * subst l. by apply Hold in H1.
  - apply dec_inv in Htag as (l & s & Hl & Hs & _ & ->). split.
    + intros c k Hk. simpl in Hk. destruct (Hlive _ _ Hk) as (l' & Hl' & Hs').
      exists l'. split; first done. simpl. by apply lookup_insert_is_Some'; right.
    + intros c1 c2 l0 H1 H2. by eapply Hinj.
Qed.

Lemma reachable_ok {tc} σ : reachable tc σ → world_ok σ.
Proof.
  unfold reachable. intros Hsteps.
  eapply (rtc_ind_r (R := step tc) (λ σ, world_ok σ) empty_world);
    eauto using world_ok_empty, world_ok_step.
Qed.

Lemma world_ok_has_tags σ cls :
  world_ok σ → is_Some (classes σ !! cls) → ∃ s, class_tags σ cls = Return s.
Proof.
  intros [Hlive _] [k Hk]. destruct (Hlive _ _ Hk) as (l & Hl & [s Hs]).
  exists s. apply class_tags_inv. eauto.
Qed.

(** X12. In a program whose classes were all built by the metaclass
    (a store reached from the empty one), nothing raises on the classes
    that exist: [XBlock.tag] succeeds on each, and
    [load_tagged_classes] over any discovery of existing classes runs
    to the end. *)
Theorem reachable_never_raises {tc} σ t (loaded : list (string * cid)) :
  reachable tc σ →
  Forall (λ p, is_Some (classes σ !! p.2)) loaded →
  (load_tagged_classes σ t loaded).2 = None
  ∧ ∀ p tags, p ∈ loaded → ∃ σ', tag tags p.2 σ = Return (p.2, σ').
Proof.
  intros Hok%reachable_ok Hall.
  assert (Forall (λ p, ∃ s, class_tags σ p.2 = Return s) loaded) as Hall'.
  { eapply Forall_impl; first exact Hall. intros p Hp.
    by apply world_ok_has_tags. }
  split; first by rewrite load_tagged_classes_eq.
  intros p tags Hp. rewrite Forall_forall in Hall'.
  destruct (Hall' p Hp) as (s & (l & Hl & Hs)%class_tags_ref_inv).
  eexists. by eapply dec_eq.
Qed.

Lemma reachable_thumbs : reachable plain_type_check thumbs_tagged_world.
Proof.
  unfold reachable.
  eapply rtc_l; first (eapply (step_new plain_type_check "Thumbs" [] ∅); by vm_compute).
  apply rtc_once. eapply (step_tag plain_type_check "video" 1%positive). by vm_compute.
Qed.

Lemma reachable_never_raises_witness :
  (load_tagged_classes thumbs_tagged_world "audio"
     [("thumbs", 1%positive); ("again", 1%positive)]).2 = None
  ∧ ∃ σ', tag "audio" 1%positive thumbs_tagged_world = Return (1%positive, σ').
Proof.
  destruct (reachable_never_raises thumbs_tagged_world "audio"
              [("thumbs", 1%positive); ("again", 1%positive)] reachable_thumbs)
    as [Hload Htag].
  { repeat constructor; eexists; by vm_compute. }
  split; first exact Hload.
  apply (Htag ("thumbs", 1%positive) "audio"), list_elem_of_here.
Defined.

(** X13. In such a program no two classes share a tag set, so
    decorating one class changes the tag set of no other class:
    siblings, bases and subclasses all keep theirs. *)
Theorem tag_changes_one_class {tc} σ tags cls σ' c0 :
  reachable tc σ →
  tag tags cls σ = Return (cls, σ') →
  c0 ≠ cls →
  class_tags σ' c0 = class_tags σ c0.
Proof.
  intros [_ Hinj]%reachable_ok (l & s & Hl & Hs & _ & ->)%dec_inv Hne.
  unfold class_tags.
  change (class_tags_ref (World _ (classes σ)) c0) with (class_tags_ref σ c0).
  destruct (class_tags_ref σ c0) as [l0|] eqn:Hl0; last done.
  simpl. rewrite lookup_insert_ne; first done.
  intros <-. apply Hne. by eapply Hinj.
Qed.

Lemma tag_changes_one_class_witness :
  ∃ σ σ', demo_classes = Return ([1; 2; 3; 4]%positive, σ)
  ∧ tag "audio" 3%positive σ = Return (3%positive, σ')
  ∧ class_tags σ' 2 = class_tags σ 2.
Proof.
  eexists _, _. split; first by vm_compute. split; first by vm_compute.
  apply (tag_changes_one_class (tc := plain_type_check) _ "audio" 3%positive);
    [|by vm_compute|done].
  unfold reachable.
  eapply rtc_l; first (eapply (step_new plain_type_check "XBlock" [] ∅); by vm_compute).
  eapply rtc_l; first (eapply (step_new plain_type_check "VideoBase" [1%positive] ∅); by vm_compute).
  eapply rtc_l; first (eapply (step_tag plain_type_check "video" 2%positive); by vm_compute).
  eapply rtc_l; first (eapply (step_new plain_type_check "Lecture" [2%positive] ∅); by vm_compute).
  apply rtc_once. eapply (step_new plain_type_check "Quiz" [1%positive] ∅). by vm_compute.
Defined.

End ClassesMore.

(** ** More on the deprecated wrappers *)
Section CompatMore.
Context {exc_state : Type}.
Context (exceptions_bases : exc_class → list exc_class).

(** X14. The wrappers derive from the current classes, never the other
    way round: as long as no other class lists a wrapper among its
    bases, the only instances of a wrapper are those constructed through
    it. An exception constructed as [xblock.exceptions.XBlockSaveError]
    is thus not an instance of the deprecated [XBlockSaveError], and a
    handler that names the deprecated class does not catch it. *)
Theorem only_wrappers_are_wrapper_instances (x : exc_instance exc_state)
    (wrapper : exc_class) :
  (∀ cls base, base ∈ exceptions_bases cls → ¬ is_wrapper base) →
  is_wrapper wrapper →
  isinstance exc_state exceptions_bases x wrapper →
  exc_type exc_state x = wrapper.
Proof.
  intros Hbases Hw Hinst. unfold isinstance, issubclass in Hinst.
  apply rtc_inv_r in Hinst as [Heq|(mid & _ & Hlast)]; first done.
  exfalso. destruct mid; simpl in Hlast;
    try (by eapply Hbases);
    apply list_elem_of_singleton in Hlast; subst wrapper;
    destruct Hw; discriminate.
Qed.

End CompatMore.

Lemma only_wrappers_are_wrapper_instances_witness :
  isinstance _ (λ _, [other_class "Exception"])
    (ExcInstance (list pyval) core_XBlockSaveError []) core_XBlockSaveError
  ∧ exc_type _ (ExcInstance (list pyval) core_XBlockSaveError [])
    = core_XBlockSaveError.
Proof.
  assert (isinstance _ (λ _, [other_class "Exception"])
            (ExcInstance (list pyval) core_XBlockSaveError [])
            core_XBlockSaveError) as Hinst by apply rtc_refl.
  split; first exact Hinst.
  apply (only_wrappers_are_wrapper_instances (λ _, [other_class "Exception"])
           (ExcInstance (list pyval) core_XBlockSaveError []) core_XBlockSaveError).
  - intros cls base ->%list_elem_of_singleton [?|?]; discriminate.
  - by right.
  - exact Hinst.
Defined.
